(** * fp_decorators: function combinators and contract-verifying wrappers

    A shallow embedding of [fp_decorators/higher_order.py],
    [fp_decorators/immutable.py] and [fp_decorators/pure.py].

    Python callables are Rocq functions into the [result] monad (a call
    either returns or raises); objects mutated in place are threaded as
    explicit post-call states; dictionaries are [gmap]s, except where the
    iteration order of a dict decides which error is reported, where they
    are association lists. *)

From Stdlib Require Import ZArith String List Bool Lia.
From stdpp Require Import base option list gmap strings pretty.

Set Default Proof Using "Type".
Set Warnings "-register-all".

(* ================================================================== *)
(** * Part I: the embedding                                            *)
(* ================================================================== *)

(** ** Exceptions and results *)

(** The exception classes the code raises, catches or lets through.  All
    of them are subclasses of [Exception]: an [except Exception] clause
    catches every one. *)
Inductive exn : Type :=
| ValueError (msg : string)
| TypeError (msg : string)
| KeyError (msg : string)
| IndexError (msg : string)
| RuntimeError (msg : string).

(** What [except Exception] catches. *)
Definition is_Exception (e : exn) : bool := true.

(** What [except (TypeError, ValueError)] catches. *)
Definition is_TypeError_or_ValueError (e : exn) : bool :=
  match e with
  | TypeError _ | ValueError _ => true
  | _ => false
  end.

Inductive result (A : Type) : Type :=
| Return (a : A)
| Raise (e : exn).

Arguments Return {A} a.
Arguments Raise {A} e.

#[global] Instance result_ret : MRet result := λ A a, Return a.

#[global] Instance result_bind : MBind result := λ A B f m,
  match m with
  | Return a => f a
  | Raise e => Raise e
  end.

(** [try: body  except <handles> as e: handler e]. *)
Definition try_except {A : Type} (body : result A) (handles : exn → bool)
    (handler : exn → result A) : result A :=
  match body with
  | Return a => Return a
  | Raise e => if handles e then handler e else Raise e
  end.

(** [for x in items: s = body(s, x)], stopping at the first exception. *)
Fixpoint for_each {A St : Type} (body : St → A → result St) (items : list A)
    (s : St) : result St :=
  match items with
  | [] => Return s
  | x :: rest => s' ← body s x; for_each body rest s'
  end.

(** [[f(x) for x in items]]. *)
Fixpoint comprehension {A B : Type} (f : A → result B) (items : list A)
    : result (list B) :=
  match items with
  | [] => Return []
  | x :: rest => y ← f x; ys ← comprehension f rest; Return (y :: ys)
  end.

(** [range(start, stop)]. *)
Definition py_range (start stop : nat) : list nat := seq start (stop - start).

(** ** Python values

    The concrete values used to run the wrappers.  A user-defined class
    fixes how its instances compare ([__eq__]), how they print
    ([__repr__]) and whether [copy.deepcopy] accepts them; an instance
    carries its class and its state. *)

Inductive eq_protocol : Type :=
| EqByState      (* __eq__ compares the instance state *)
| EqUnsupported. (* the comparison raises *)

Inductive repr_protocol : Type :=
| ReprState      (* the text shows the state: Name(state) *)
| ReprOpaque.    (* the text is fixed: <Name> *)

Record pyclass : Type := {
  cls_name : string;
  cls_eq : eq_protocol;
  cls_repr : repr_protocol;
  cls_copyable : bool;
}.

Inductive pyval : Type :=
| PNone
| PInt (z : Z)
| PStr (s : string)
| PList (items : list pyval)
| PLogger (name : string)
| PObj (cls : pyclass) (state : Z).

(** ** higher_order.py *)

Module HigherOrder.

Section Combinators.
Context {V : Type}.

(** [compose] of the functions [funcs]: right to left. *)
Definition compose (funcs : list (V → result V)) : V → result V :=
  match funcs with
  | [] => λ x, Return x
  | _ =>
      let composed_function x :=
        for_each (λ result f, f result) (rev funcs) x in
      composed_function
  end.

(** [pipe] of the functions [funcs]: left to right. *)
Definition pipe (funcs : list (V → result V)) : V → result V :=
  match funcs with
  | [] => λ x, Return x
  | _ =>
      let piped_function x :=
        for_each (λ result f, f result) funcs x in
      piped_function
  end.

End Combinators.

(** [map_reduce(mapper, reducer, initial_value=None)].  [initial] is the
    argument as the caller wrote it: [None] when it is left out, in which
    case the parameter takes its default, Python's [None]. *)
Section MapReduce.
Variable mapper : pyval → result pyval.
Variable reducer : pyval → pyval → result pyval.

Definition is_not_None (v : pyval) : bool :=
  match v with
  | PNone => false
  | _ => true
  end.

Definition map_reduce_fn (initial_value : pyval) (collection : list pyval)
    : result pyval :=
  mapped ← comprehension mapper collection;
  match mapped with
  | [] => Return initial_value
  | first :: _ =>
      let '(result, start_idx) :=
        if is_not_None initial_value then (initial_value, 0)
        else (first, 1) in
      for_each
        (λ result i,
           match mapped !! i with
           | Some m => reducer result m
           | None => Raise (IndexError "list index out of range")
           end)
        (py_range start_idx (length mapped)) result
  end.

Definition map_reduce (initial : option pyval) : list pyval → result pyval :=
  map_reduce_fn (default PNone initial).

End MapReduce.

(** *** curry *)

(** What [inspect.signature] tells about one parameter. *)
Inductive param_kind : Type :=
| POSITIONAL_ONLY
| POSITIONAL_OR_KEYWORD
| VAR_POSITIONAL
| KEYWORD_ONLY
| VAR_KEYWORD.

Record parameter : Type := {
  param_name : string;
  kind : param_kind;
  default_is_empty : bool;
}.

Definition is_variadic (k : param_kind) : bool :=
  match k with
  | VAR_POSITIONAL | VAR_KEYWORD => true
  | _ => false
  end.

(** The number of parameters without a default that are not variadic. *)
Definition required_args (parameters : list parameter) : nat :=
  length (filter (λ param, default_is_empty param && negb (is_variadic (kind param)))
            parameters).

Section Curry.
Context {V : Type}.
(** The curried function, called with positional and keyword arguments. *)
Variable fn : list V → gmap string V → result V.
(** [inspect.signature(fn).parameters], which may raise. *)
Variable signature : result (list parameter).
Variable arity : option Z.

(** [_curry] first fixes [fn_arity]. *)
Definition fn_arity : result Z :=
  match arity with
  | None => parameters ← signature; Return (Z.of_nat (required_args parameters))
  | Some a => Return a
  end.

(** A call of [curried] either returns what [fn] returned or the closure
    [inner], which is the pair of the arguments it captured. *)
Inductive curried_result : Type :=
| Value (v : V)
| Inner (args : list V) (kwargs : gmap string V).

Definition curried (fn_arity : Z) (args : list V) (kwargs : gmap string V)
    : result curried_result :=
  if bool_decide (fn_arity ≤ Z.of_nat (length args) + Z.of_nat (size kwargs))%Z
  then v ← fn args kwargs; Return (Value v)
  else Return (Inner args kwargs).

(** Calling the closure [inner] that captured [args] and [kwargs].  In the
    merged dict the later keyword values win. *)
Definition inner (fn_arity : Z) (args : list V) (kwargs : gmap string V)
    (more_args : list V) (more_kwargs : gmap string V) : result curried_result :=
  let combined_args := args ++ more_args in
  let combined_kwargs := more_kwargs ∪ kwargs in
  curried fn_arity combined_args combined_kwargs.

End Curry.

(** *** memoize *)

(** [l.remove(k)]: drops the first occurrence, [None] when there is none
    (Python raises ValueError). *)
Fixpoint list_remove_first {K : Type} `{EqDecision K} (k : K) (l : list K)
    : option (list K) :=
  match l with
  | [] => None
  | x :: rest =>
      if decide (x = k) then Some rest
      else (x ::.) <$> list_remove_first k rest
  end.

Section Memoize.
Context {A K R : Type} `{Countable K}.
(** The memoized function on an argument list, and the computation of the
    cache key of an argument list: the call of [key_func] when one is given,
    else the default key built from the arguments. *)
Variable fn : A → result R.
Variable max_size : option Z.
Variable make_key : A → result K.

(** The variables [cache] and [order] of [_memoize], shared by [memoized]
    and [clear_cache]; [order] stays empty without [max_size].  [invoked]
    logs the argument lists [fn] was called with. *)
Record memo : Type := {
  cache : gmap K R;
  order : list K;
  invoked : list A;
}.

Definition fresh : memo := {| cache := ∅; order := []; invoked := [] |}.

Definition set_cache (c : gmap K R) (st : memo) : memo :=
  {| cache := c; order := order st; invoked := invoked st |}.

Definition set_order (o : list K) (st : memo) : memo :=
  {| cache := cache st; order := o; invoked := invoked st |}.

Definition log_call (args : A) (st : memo) : memo :=
  {| cache := cache st; order := order st; invoked := invoked st ++ [args] |}.

(** One call of [memoized]: the state it leaves and what it returns or
    raises. *)
Definition memoized (st : memo) (args : A) : memo * result R :=
  match make_key args with
  | Raise e => (st, Raise e)
  | Return key =>
      match cache st !! key with
      | Some cached =>
          match max_size with
          | Some _ =>
              match list_remove_first key (order st) with
              | None => (st, Raise (ValueError "list.remove(x): x not in list"))
              | Some removed => (set_order (removed ++ [key]) st, Return cached)
              end
          | None => (st, Return cached)
          end
      | None =>
          let st := log_call args st in
          match fn args with
          | Raise e => (st, Raise e)
          | Return result =>
              let st := set_cache (<[key := result]> (cache st)) st in
              match max_size with
              | Some max_size =>
                  let st := set_order (order st ++ [key]) st in
                  if bool_decide (max_size < Z.of_nat (length (order st)))%Z then
                    match order st with
                    | [] => (st, Raise (IndexError "pop from empty list"))
                    | oldest_key :: rest =>
                        let st := set_order rest st in
                        match cache st !! oldest_key with
                        | None => (st, Raise (KeyError "oldest_key"))
                        | Some _ =>
                            (set_cache (delete oldest_key (cache st)) st,
                             Return result)
                        end
                    end
                  else (st, Return result)
              | None => (st, Return result)
              end
          end
      end
  end.

(** [memoized.clear_cache = lambda: cache.clear()]. *)
Definition clear_cache (st : memo) : memo := set_cache ∅ st.

(** A sequence of calls, results dropped. *)
Definition run (st : memo) (calls : list A) : memo :=
  foldl (λ st args, (memoized st args).1) st calls.

(** The call [memoized(args)] in state [st] evicts the key [k]: the entry is
    cached before the call and gone after it. *)
Definition evicts (st : memo) (args : A) (k : K) : Prop :=
  is_Some (cache st !! k) ∧ cache (memoized st args).1 !! k = None.

(** The call invokes [fn]. *)
Definition invokes (st : memo) (args : A) : Prop :=
  invoked (memoized st args).1 = invoked st ++ [args].

End Memoize.

(** *** trampoline *)

Section Trampoline.
Context {Args V : Type}.
(** [callable(v)], [isinstance(v, type)], and the call [v()], which may
    return, raise or not come back ([None]). *)
Variable callable : V → bool.
Variable is_type : V → bool.
Variable call0 : V → option (result V).
Variable func : Args → result V.

(** The condition of the [while] loop. *)
Definition keeps_bouncing (res : V) : bool :=
  callable res && negb (is_type res).

(** The [while] loop, run for at most [fuel] iterations; [None] when it is
    still running then. *)
Fixpoint bounce (fuel : nat) (res : V) : option (result V) :=
  if keeps_bouncing res then
    match fuel with
    | 0 => None
    | S fuel =>
        match call0 res with
        | None => None
        | Some (Raise e) => Some (Raise e)
        | Some (Return next) => bounce fuel next
        end
    end
  else Some (Return res).

Definition trampolined (fuel : nat) (args : Args) : option (result V) :=
  match func args with
  | Raise e => Some (Raise e)
  | Return res => bounce fuel res
  end.


End Trampoline.

(** The factorial of the tests and of the docstring:
    [[
    @trampoline
    def factorial(n, acc=1):
        if n <= 1: return acc
        return lambda: factorial(n-1, n*acc)
    ]]
    A value is an integer or the closure of the lambda over [n] and [acc]. *)
Inductive fact_val : Type :=
| FInt (z : Z)
| FLambda (n acc : Z).

Definition fact_callable (v : fact_val) : bool :=
  match v with
  | FInt _ => false
  | FLambda _ _ => true
  end.

Definition factorial_body (args : Z * Z) : result fact_val :=
  let '(n, acc) := args in
  if (n <=? 1)%Z then Return (FInt acc) else Return (FLambda n acc).

(** Inside the lambda the name [factorial] is the decorated function, so
    calling the lambda runs a trampoline of its own; [depth] bounds the
    nesting of these calls. *)
Fixpoint factorial (depth fuel : nat) (n acc : Z) : option (result fact_val) :=
  trampolined fact_callable (λ _, false)
    (λ v, match v, depth with
          | FLambda n acc, S depth => factorial depth fuel (n - 1)%Z (n * acc)%Z
          | FLambda _ _, 0 => None
          | FInt _, _ => Some (Raise (TypeError "'int' object is not callable"))
          end)
    factorial_body fuel (n, acc).


Fixpoint zfact (n : nat) : Z :=
  match n with
  | 0 => 1
  | S k => Z.of_nat n * zfact k
  end.

End HigherOrder.

Import HigherOrder.

(** ** The object protocol

    What the contract verifiers ask of an argument or a global, whatever
    its type: a deep copy, a comparison, a textual representation, and
    whether it is a logger.  [copy.deepcopy] and the operator [!=] (followed
    by the truth test of [if]) run code of the object's class and may
    raise. *)

Class PyObject (V : Type) : Type := {
  deepcopy : V → result V;
  py_ne : V → V → result bool;
  py_str : V → string;
  (** a [str] as a value *)
  str_object : string → V;
  (** [isinstance(v, logging.Logger)] *)
  is_Logger : V → bool;
}.

(** The comparison of a value with its snapshot, as the verifiers make
    it, finds a difference: [!=] does not answer False and the two texts
    differ. *)
Definition mismatch {V : Type} `{PyObject V} (before after : V) : Prop :=
  py_ne before after ≠ Return false ∧ py_str before ≠ py_str after.

(** The comparison of the specification: structural equality first, the
    texts only if the comparison raises. *)
Definition snapshots_differ {V : Type} `{PyObject V} (before after : V) : Prop :=
  py_ne before after = Return true
  ∨ ((∃ e, py_ne before after = Raise e) ∧ py_str before ≠ py_str after).

(** A dict whose order of insertion matters is a list of items with
    distinct keys. *)
Fixpoint getitem {V : Type} (d : list (string * V)) (key : string) : result V :=
  match d with
  | [] => Raise (KeyError key)
  | (k, v) :: rest => if bool_decide (k = key) then Return v else getitem rest key
  end.

(** [enumerate(l)]. *)
Definition enumerate {A : Type} (l : list A) : list (nat * A) :=
  zip (seq 0 (length l)) l.

(** [{key: f(value) for key, value in d.items()}]. *)
Definition dict_comprehension {V W : Type} (f : V → result W)
    (d : list (string * V)) : result (list (string * W)) :=
  comprehension (λ '(key, value), w ← f value; Return (key, w)) d.

(** ** immutable.py *)

Module Immutable.

(** What a call of the wrapped function leaves: the value it returns and
    the state, after the call, of the objects it was given. *)
Record outcome (V : Type) : Type := {
  returned : V;
  args_post : list V;
  kwargs_post : list (string * V);
}.

Arguments returned {V} o.
Arguments args_post {V} o.
Arguments kwargs_post {V} o.

Section Immutable.
Context {V : Type} `{PyObject V}.
(** [to_immutable], which rebuilds lists as tuples and dicts and sets as
    frozensets; the wrapper only passes its results on. *)
Variable to_immutable : V → V.
(** [fn.__name__], the keys of [inspect.signature(fn).parameters], and
    the function itself. *)
Variable fn_name : string.
Variable param_names : list string.
Variable fn : list V → list (string * V) → result (outcome V).

Definition positional_violation (i : nat) : exn :=
  let param_name := default ("args[" +:+ pretty i +:+ "]") (param_names !! i) in
  ValueError ("Immutability violation in " +:+ fn_name
              +:+ ": modified input positional argument '" +:+ param_name +:+ "'").

Definition keyword_violation (key : string) : exn :=
  ValueError ("Immutability violation in " +:+ fn_name
              +:+ ": modified input keyword argument '" +:+ key +:+ "'").

(** The body of the two verification loops: the comparison and the [raise]
    are both inside the [try], whose handler compares the texts. *)
Definition verify (violation : exn) (before after : V) : result unit :=
  try_except
    (ne ← py_ne before after;
     if ne : bool then Raise violation else Return ())
    is_Exception
    (λ e, if bool_decide (py_str before ≠ py_str after) then Raise violation
          else Return ()).

Definition wrapper (deep_copy freeze_input : bool)
    (args : list V) (kwargs : list (string * V)) : result V :=
  copied ←
    (if deep_copy then
       copied_args ← comprehension deepcopy args;
       copied_kwargs ← dict_comprehension deepcopy kwargs;
       Return (copied_args, copied_kwargs)
     else Return (args, kwargs));
  let '(copied_args, copied_kwargs) := copied in
  if freeze_input then
    let immutable_args := map to_immutable copied_args in
    let immutable_kwargs := prod_map id to_immutable <$> copied_kwargs in
    out ← fn immutable_args immutable_kwargs;
    Return (returned out)
  else
    args_before ← comprehension deepcopy copied_args;
    kwargs_before ← dict_comprehension deepcopy copied_kwargs;
    out ← fn copied_args copied_kwargs;
    let args_after := args_post out in
    let kwargs_after := kwargs_post out in
    _ ← for_each
          (λ _ '(i, (before, after)), verify (positional_violation i) before after)
          (enumerate (zip args_before args_after)) ();
    _ ← for_each
          (λ _ '(key, before),
             after ← getitem kwargs_after key;
             verify (keyword_violation key) before after)
          kwargs_before ();
    Return (returned out).

(** [immutable(fn)]: [deep_copy=True], [freeze_input=False]. *)
Definition immutable : list V → list (string * V) → result V :=
  wrapper true false.

(** The result is a contract violation. *)
Definition is_violation (r : result V) : Prop :=
  (∃ i, r = Raise (positional_violation i)) ∨ (∃ key, r = Raise (keyword_violation key)).

(** Some positional or keyword argument is, after the call, in the relation
    [differs] with its snapshot. *)
Definition some_argument (differs : V → V → Prop) (args_before : list V)
    (kwargs_before : list (string * V)) (out : outcome V) : Prop :=
  (∃ i before after,
     args_before !! i = Some before
     ∧ args_post out !! i = Some after
     ∧ differs before after)
  ∨ (∃ key before after,
       (key, before) ∈ kwargs_before
       ∧ getitem (kwargs_post out) key = Return after
       ∧ differs before after).

Definition some_mismatch : list V → list (string * V) → outcome V → Prop :=
  some_argument mismatch.

End Immutable.

End Immutable.

(** ** pure.py *)

Module Pure.

(** What the wrapped function can reach besides its arguments: its module
    globals [fn.__globals__] and the state of the [random] module. *)
Record world (V : Type) : Type := {
  globals : gmap string V;
  random_getstate : Z;
}.

Arguments globals {V} w.
Arguments random_getstate {V} w.

Record outcome (V : Type) : Type := {
  returned : V;
  args_post : list V;
  kwargs_post : list (string * V);
  world_post : world V;
}.

Arguments returned {V} o.
Arguments args_post {V} o.
Arguments kwargs_post {V} o.
Arguments world_post {V} o.

Section Pure.
Context {V : Type} `{PyObject V}.
Variable fn_name : string.
Variable param_names : list string.
(** The global names the code of [fn] refers to; those bound in
    [fn.__globals__] are the keys of [inspect.getclosurevars(fn).globals]. *)
Variable global_names : list string.
Variable fn : world V → list V → list (string * V) → result (outcome V).

Variable ignore_params : list string.
Variable allow_random : bool.
Variable allow_logging : bool.

Definition positional_violation (i : nat) : exn :=
  let param_name := default ("args[" +:+ pretty i +:+ "]") (param_names !! i) in
  ValueError ("Pure function violation in " +:+ fn_name
              +:+ ": modified input positional argument '" +:+ param_name +:+ "'").

Definition keyword_violation (key : string) : exn :=
  ValueError ("Pure function violation in " +:+ fn_name
              +:+ ": modified input keyword argument '" +:+ key +:+ "'").

Definition global_violation (name : string) : exn :=
  ValueError ("Pure function violation in " +:+ fn_name
              +:+ ": modified global variable '" +:+ name +:+ "'").

(** The comparison of the verification loops, as in [immutable]. *)
Definition verify (violation : exn) (original current : V) : result unit :=
  try_except
    (ne ← py_ne original current;
     if ne : bool then Raise violation else Return ())
    is_Exception
    (λ e, if bool_decide (py_str original ≠ py_str current) then Raise violation
          else Return ()).

(** The keys of [inspect.getclosurevars(fn).globals]. *)
Definition closure_globals (g : gmap string V) : list string :=
  filter (λ name, is_Some (g !! name)) global_names.

(** The condition under which a global is recorded. *)
Definition is_tracked (g : gmap string V) (name : string) : bool :=
  match g !! name with
  | Some value =>
      bool_decide (name ≠ "random") && negb (allow_logging && is_Logger value)
  | None => false
  end.

(** The loop that fills [func_globals]. *)
Definition capture_globals (g : gmap string V) : result (list (string * V)) :=
  for_each
    (λ func_globals name,
       match g !! name with
       | Some value =>
           if is_tracked g name then
             snapshot ←
               try_except (deepcopy value) is_TypeError_or_ValueError
                 (λ _, Return (str_object (py_str value)));
             Return (func_globals ++ [(name, snapshot)])
           else Return func_globals
       | None => Return func_globals
       end)
    (closure_globals g) [].

Definition check_positional (i : nat) (original current : V) : result unit :=
  if bool_decide (i < length param_names)
     && bool_decide (default EmptyString (param_names !! i) ∈ ignore_params)
  then Return ()
  else if allow_logging && is_Logger current then Return ()
  else verify (positional_violation i) original current.

Definition check_keyword (kwargs : list (string * V)) (key : string)
    (original : V) : result unit :=
  if bool_decide (key ∈ ignore_params) then Return ()
  else
    current ← getitem kwargs key;
    if allow_logging && is_Logger current then Return ()
    else verify (keyword_violation key) original current.

(** The arguments the two loops do not skip. *)
Definition is_tracked_positional (i : nat) (current : V) : bool :=
  negb (bool_decide (i < length param_names)
        && bool_decide (default EmptyString (param_names !! i) ∈ ignore_params))
  && negb (allow_logging && is_Logger current).

Definition is_tracked_keyword (key : string) (current : V) : bool :=
  negb (bool_decide (key ∈ ignore_params))
  && negb (allow_logging && is_Logger current).

(** [fn.__globals__[name]]. *)
Definition global_getitem (g : gmap string V) (name : string) : result V :=
  match g !! name with
  | Some value => Return value
  | None => Raise (KeyError name)
  end.

Definition check_global (g : gmap string V) (name : string)
    (original_value : V) : result unit :=
  if bool_decide (name = "random") && allow_random then Return ()
  else
    try_except
      (current_value ← global_getitem g name;
       ne ← py_ne original_value current_value;
       if ne : bool then Raise (global_violation name) else Return ())
      is_Exception
      (λ e, current_value ← global_getitem g name;
            if bool_decide (py_str original_value ≠ py_str current_value)
            then Raise (global_violation name)
            else Return ()).

(** The comparison of the two states of [random], which changes nothing
    whatever it finds. *)
Definition compare_random_state (random_state : option Z) (w : world V) : unit :=
  match random_state with
  | Some random_state =>
      let new_random_state := random_getstate w in
      if bool_decide (random_state ≠ new_random_state) then () else ()
  | None => ()
  end.

Definition wrapper (w : world V) (args : list V) (kwargs : list (string * V))
    : result V :=
  args_copy ← comprehension deepcopy args;
  kwargs_copy ← dict_comprehension deepcopy kwargs;
  let random_state := if allow_random then Some (random_getstate w) else None in
  func_globals ← capture_globals (globals w);
  out ← fn w args kwargs;
  _ ← for_each
        (λ _ '(i, (original, current)), check_positional i original current)
        (enumerate (zip args_copy (args_post out))) ();
  _ ← for_each
        (λ _ '(key, original), check_keyword (kwargs_post out) key original)
        kwargs_copy ();
  let '() := compare_random_state random_state (world_post out) in
  _ ← for_each
        (λ _ '(name, original_value),
           check_global (globals (world_post out)) name original_value)
        func_globals ();
  Return (returned out).

End Pure.

End Pure.

(** ** The values of the tests as objects *)

Definition same_class (c c' : pyclass) : bool :=
  bool_decide (cls_name c = cls_name c').

Fixpoint py_eq (a b : pyval) : result bool :=
  match a, b with
  | PNone, PNone => Return true
  | PInt x, PInt y => Return (bool_decide (x = y))
  | PStr s, PStr t => Return (bool_decide (s = t))
  | PList xs, PList ys =>
      if bool_decide (length xs = length ys) then
        (fix all_eq (xs ys : list pyval) : result bool :=
           match xs, ys with
           | x :: xs, y :: ys =>
               e ← py_eq x y;
               if e : bool then all_eq xs ys else Return false
           | _, _ => Return true
           end) xs ys
      else Return false
  | PLogger n, PLogger m => Return (bool_decide (n = m))
  | PObj c s, PObj c' s' =>
      match cls_eq c with
      | EqByState => Return (same_class c c' && bool_decide (s = s'))
      | EqUnsupported => Raise (TypeError "comparison is not supported")
      end
  | PObj c _, _ | _, PObj c _ =>
      match cls_eq c with
      | EqByState => Return false
      | EqUnsupported => Raise (TypeError "comparison is not supported")
      end
  | _, _ => Return false
  end.

(** [repr(v)]; the quoting of a [str] is the one of texts without quotes
    or escapes. *)
Fixpoint py_repr (v : pyval) : string :=
  match v with
  | PNone => "None"
  | PInt z => pretty z
  | PStr s => "'" +:+ s +:+ "'"
  | PList items => "[" +:+ String.concat ", " (map py_repr items) +:+ "]"
  | PLogger name => "<Logger " +:+ name +:+ ">"
  | PObj c state =>
      match cls_repr c with
      | ReprState => cls_name c +:+ "(" +:+ pretty state +:+ ")"
      | ReprOpaque => "<" +:+ cls_name c +:+ ">"
      end
  end.

Fixpoint pyval_deepcopy (v : pyval) : result pyval :=
  match v with
  | PList items => items' ← comprehension pyval_deepcopy items; Return (PList items')
  | PObj c state =>
      if cls_copyable c then Return (PObj c state)
      else Raise (TypeError ("cannot pickle '" +:+ cls_name c +:+ "' object"))
  | _ => Return v
  end.

#[global] Instance pyval_object : PyObject pyval := {|
  deepcopy := pyval_deepcopy;
  py_ne a b := e ← py_eq a b; Return (negb e);
  py_str v := match v with PStr s => s | _ => py_repr v end;
  str_object := PStr;
  is_Logger v := match v with PLogger _ => true | _ => false end;
|}.

(** ** Callables and classes of the tests and examples *)

Module Tests.

(** [lambda x: x * x], and [+] and [*] as reducers. *)
Definition square (x : pyval) : result pyval :=
  match x with
  | PInt z => Return (PInt (z * z))
  | _ => Raise (TypeError "unsupported operand type(s) for *")
  end.

Definition add (a b : pyval) : result pyval :=
  match a, b with
  | PInt x, PInt y => Return (PInt (x + y))
  | _, _ => Raise (TypeError "unsupported operand type(s) for +")
  end.

Definition mul (a b : pyval) : result pyval :=
  match a, b with
  | PInt x, PInt y => Return (PInt (x * y))
  | _, _ => Raise (TypeError "unsupported operand type(s) for *")
  end.

(** [def add(a, b, c): return a + b + c] and its signature. *)
Definition add3 (args : list pyval) (kwargs : gmap string pyval) : result pyval :=
  match args with
  | [PInt a; PInt b; PInt c] =>
      if bool_decide (kwargs = ∅) then Return (PInt (a + b + c))
      else Raise (TypeError "got an unexpected keyword argument")
  | _ => Raise (TypeError "wrong arguments")
  end.

Definition add3_signature : list parameter :=
  [ {| param_name := "a"; kind := POSITIONAL_OR_KEYWORD; default_is_empty := true |};
    {| param_name := "b"; kind := POSITIONAL_OR_KEYWORD; default_is_empty := true |};
    {| param_name := "c"; kind := POSITIONAL_OR_KEYWORD; default_is_empty := true |} ].

(** [def bad_add_to_list(lst): lst.append(4); return lst]: the list
    passed is the list returned, one element longer. *)
Definition bad_add_to_list (args : list pyval) (kwargs : list (string * pyval))
    : result (Immutable.outcome pyval) :=
  match args, kwargs with
  | [PList items], [] =>
      let lst := PList (items ++ [PInt 4]) in
      Return {| Immutable.returned := lst;
                Immutable.args_post := [lst];
                Immutable.kwargs_post := [] |}
  | _, _ => Raise (TypeError "bad_add_to_list() takes one list")
  end.

(** [def add_to_list(lst): result = lst.copy(); result.append(4);
    return result]: the argument is left as it was. *)
Definition add_to_list (args : list pyval) (kwargs : list (string * pyval))
    : result (Immutable.outcome pyval) :=
  match args, kwargs with
  | [PList items], [] =>
      Return {| Immutable.returned := PList (items ++ [PInt 4]);
                Immutable.args_post := args;
                Immutable.kwargs_post := [] |}
  | _, _ => Raise (TypeError "add_to_list() takes one list")
  end.

(** A class whose [__eq__] compares the state of its instances and whose
    [__repr__] does not show it, and one whose [__repr__] shows it:
    [[
    class Box:
        def __init__(self, v): self.v = v
        def __eq__(self, other): return self.v == other.v
        def __repr__(self): return "<Box>"
    ]] *)
Definition Box : pyclass :=
  {| cls_name := "Box"; cls_eq := EqByState; cls_repr := ReprOpaque;
     cls_copyable := true |}.

Definition Cell : pyclass :=
  {| cls_name := "Cell"; cls_eq := EqByState; cls_repr := ReprState;
     cls_copyable := true |}.

(** [def set_v(b): b.v = 2]: assigns the attribute of its argument. *)
Definition set_v (args : list pyval) (kwargs : list (string * pyval))
    : result (Immutable.outcome pyval) :=
  match args, kwargs with
  | [PObj c _], [] =>
      Return {| Immutable.returned := PNone;
                Immutable.args_post := [PObj c 2];
                Immutable.kwargs_post := [] |}
  | _, _ => Raise (TypeError "set_v() takes one object")
  end.

(** A function that adds one to the integer global [name] and appends 4 to
    every list it is given; with one parameter [lst]:
    [[
    def bump(lst):
        global name
        name += 1
        lst.append(4)
    ]] *)
Definition bump (name : string) (w : Pure.world pyval) (args : list pyval)
    (kwargs : list (string * pyval)) : result (Pure.outcome pyval) :=
  match Pure.globals w !! name with
  | Some (PInt c) =>
      Return {| Pure.returned := PNone;
                Pure.args_post :=
                  map (λ arg, match arg with
                              | PList items => PList (items ++ [PInt 4])
                              | _ => arg
                              end) args;
                Pure.kwargs_post := kwargs;
                Pure.world_post :=
                  {| Pure.globals := <[name := PInt (c + 1)]> (Pure.globals w);
                     Pure.random_getstate := Pure.random_getstate w |} |}
  | _ => Raise (TypeError "unsupported operand type(s) for +=")
  end.

(** [def add(a, b): return a + b], which touches nothing. *)
Definition pure_add (w : Pure.world pyval) (args : list pyval)
    (kwargs : list (string * pyval)) : result (Pure.outcome pyval) :=
  match args with
  | [PInt a; PInt b] =>
      Return {| Pure.returned := PInt (a + b);
                Pure.args_post := args;
                Pure.kwargs_post := kwargs;
                Pure.world_post := w |}
  | _ => Raise (TypeError "add() takes two integers")
  end.

(** Module globals with one integer binding. *)
Definition one_global (name : string) (value : Z) : Pure.world pyval :=
  {| Pure.globals := {[ name := PInt value ]}; Pure.random_getstate := 0 |}.

End Tests.

(** ** higher_order.py: partial, chains of curried calls, the enhanced wrapper *)

Module Combinators.

Section Partial.
Context {V : Type}.
Variable func : list V → gmap string V → result V.

(** The function returned by [partial(func, args..., kwargs...)]: the fixed
    positional arguments come first, and in the merged keywords those of
    the call win. *)
Definition partially_applied (args : list V) (kwargs : gmap string V)
    (more_args : list V) (more_kwargs : gmap string V) : result V :=
  func (args ++ more_args) (more_kwargs ∪ kwargs).

End Partial.

Section CurriedCalls.
Context {V : Type}.
Variable fn : list V → gmap string V → result V.
Variable fn_arity : Z.
(** Calling a value that [fn] returned is the business of that value. *)
Variable call_value : V → list V → result (@curried_result V).

(** One more call, with positional arguments, on what a call returned. *)
Definition call_result (r : curried_result) (more_args : list V)
    : result curried_result :=
  match r with
  | Inner args kwargs => inner fn fn_arity args kwargs more_args ∅
  | Value v => call_value v more_args
  end.

(** The chain of calls [curry(fn)(first)(g1)...(gn)], each with positional
    arguments only. *)
Definition call_chain (first : list V) (rest : list (list V))
    : result curried_result :=
  r ← curried fn fn_arity first ∅;
  for_each call_result rest r.

End CurriedCalls.

Section Enhanced.
Context {V : Type}.
Variable fn : list V → gmap string V → result V.

(** The wrapper of [_higher_order], and its call on one value, which is how
    [compose] and [pipe] call the functions they are given. *)
Definition wrapper (args : list V) (kwargs : gmap string V) : result V :=
  fn args kwargs.

Definition wrapper1 (x : V) : result V := wrapper [x] ∅.

(** [wrapper.compose] and [wrapper.pipe] of the enhanced wrapper. *)
Definition enhanced_compose (funcs : list (V → result V)) : V → result V :=
  compose (funcs ++ [wrapper1]).

Definition enhanced_pipe (funcs : list (V → result V)) : V → result V :=
  pipe ([wrapper1] ++ funcs).

End Enhanced.

Section MemoizeInvariant.
Context {A K R : Type} `{Countable K}.

(** The recency list names each cached key once, and nothing else. *)
Definition lru_consistent (st : @memo A K R _ _) : Prop :=
  NoDup (order st) ∧ ∀ k, k ∈ order st ↔ is_Some (cache st !! k).

End MemoizeInvariant.

End Combinators.

(** ** immutable.py: to_immutable *)

Module Freeze.

(** The values [to_immutable] tells apart: lists, dicts and sets, which it
    rebuilds, and the rest, which it returns as it is; among the rest, tuples
    and frozensets, which it builds.  A dict is the list of its items, a set
    or frozenset the list of its elements, which are distinct. *)
Inductive fval : Type :=
| FAtom (a : Z)
| FList (items : list fval)
| FTuple (items : list fval)
| FDict (items : list (fval * fval))
| FSet (items : list fval)
| FFrozenset (items : list fval).

(** No list, dict or set at any depth; this is when [hash] succeeds. *)
Fixpoint frozen (v : fval) : bool :=
  match v with
  | FAtom _ => true
  | FTuple items | FFrozenset items => forallb frozen items
  | FList _ | FDict _ | FSet _ => false
  end.

(** The type that [hash] names when it fails: the first list, dict or set
    it meets. *)
Fixpoint unhashable_type (v : fval) : option string :=
  match v with
  | FAtom _ => None
  | FList _ => Some "list"
  | FDict _ => Some "dict"
  | FSet _ => Some "set"
  | FTuple items | FFrozenset items =>
      (fix first (items : list fval) : option string :=
         match items with
         | [] => None
         | item :: rest =>
             match unhashable_type item with
             | Some type => Some type
             | None => first rest
             end
         end) items
  end.

(** [hash(v)], which [frozenset(...)] calls on each of its elements. *)
Definition check_hashable (v : fval) : result fval :=
  match unhashable_type v with
  | None => Return v
  | Some type => Raise (TypeError ("unhashable type: '" +:+ type +:+ "'"))
  end.

Fixpoint to_immutable (obj : fval) : result fval :=
  match obj with
  | FList items =>
      items' ← comprehension to_immutable items;
      Return (FTuple items')
  | FDict items =>
      pairs ← comprehension
                (λ item, v ← to_immutable item.2;
                         check_hashable (FTuple [item.1; v]))
                items;
      Return (FFrozenset pairs)
  | FSet items =>
      items' ← comprehension
                 (λ item, v ← to_immutable item; check_hashable v)
                 items;
      Return (FFrozenset items')
  | _ => Return obj
  end.

(** A value as Python builds it: the keys of a dict and the elements of a
    set or frozenset are hashable. *)
Fixpoint well_formed (v : fval) : bool :=
  match v with
  | FAtom _ => true
  | FList items | FTuple items => forallb well_formed items
  | FDict items =>
      forallb (λ item, frozen item.1 && well_formed item.1 && well_formed item.2)
        items
  | FSet items | FFrozenset items =>
      forallb (λ item, frozen item && well_formed item) items
  end.

(** Every tuple inside the value is hashable. *)
Fixpoint tuples_frozen (v : fval) : bool :=
  match v with
  | FAtom _ => true
  | FTuple items => forallb frozen items
  | FList items | FSet items | FFrozenset items => forallb tuples_frozen items
  | FDict items =>
      forallb (λ item, tuples_frozen item.1 && tuples_frozen item.2) items
  end.

End Freeze.

(** ** calculate_raw_averages.py: the loop over the lines *)

Module RawMetrics.

(** [needle in haystack], on strings. *)
Fixpoint contains (needle haystack : string) : bool :=
  String.prefix needle haystack
  || match haystack with
     | EmptyString => false
     | String _ rest => contains needle rest
     end.

(** The seven lists of the script. *)
Record metrics : Type := {
  loc : list Z;
  lloc : list Z;
  sloc : list Z;
  comments : list Z;
  multi : list Z;
  blank : list Z;
  single_comments : list Z;
  current_file : option string;
}.

Definition initial : metrics :=
  {| loc := []; lloc := []; sloc := []; comments := []; multi := [];
     blank := []; single_comments := []; current_file := None |}.

Section Loop.
(** [str.strip], and for a label such as [LOC] the search of the pattern
    made of the label, a colon, a space and a group of digits, followed by
    [int] of the group: [None] when the pattern is not found. *)
Variable strip : string → string.
Variable search : string → string → option Z.

(** [l.append(int(value.group(1)))] under [if value]. *)
Definition append_found (l : list Z) (value : option Z) : list Z :=
  match value with
  | Some n => l ++ [n]
  | None => l
  end.

(** The body of the loop over the lines of the file. *)
Definition process_line (m : metrics) (line : string) : metrics :=
  let line := strip line in
  if negb (bool_decide (line = EmptyString)) && negb (String.prefix " " line)
     && negb (contains ":" line)
  then {| loc := loc m; lloc := lloc m; sloc := sloc m; comments := comments m;
          multi := multi m; blank := blank m;
          single_comments := single_comments m; current_file := Some line |}
  else if contains "LOC:" line
  then {| loc := append_found (loc m) (search "LOC" line);
          lloc := lloc m; sloc := sloc m; comments := comments m;
          multi := multi m; blank := blank m;
          single_comments := single_comments m; current_file := current_file m |}
  else if contains "LLOC:" line
  then {| loc := loc m; lloc := append_found (lloc m) (search "LLOC" line);
          sloc := sloc m; comments := comments m;
          multi := multi m; blank := blank m;
          single_comments := single_comments m; current_file := current_file m |}
  else if contains "SLOC:" line
  then {| loc := loc m; lloc := lloc m;
          sloc := append_found (sloc m) (search "SLOC" line);
          comments := comments m;
          multi := multi m; blank := blank m;
          single_comments := single_comments m; current_file := current_file m |}
  else if contains "Comments:" line
  then {| loc := loc m; lloc := lloc m; sloc := sloc m;
          comments := append_found (comments m) (search "Comments" line);
          multi := multi m; blank := blank m;
          single_comments := single_comments m; current_file := current_file m |}
  else if contains "Multi:" line
  then {| loc := loc m; lloc := lloc m; sloc := sloc m; comments := comments m;
          multi := append_found (multi m) (search "Multi" line);
          blank := blank m;
          single_comments := single_comments m; current_file := current_file m |}
  else if contains "Blank:" line
  then {| loc := loc m; lloc := lloc m; sloc := sloc m; comments := comments m;
          multi := multi m;
          blank := append_found (blank m) (search "Blank" line);
          single_comments := single_comments m; current_file := current_file m |}
  else if contains "Single comments:" line
  then {| loc := loc m; lloc := lloc m; sloc := sloc m; comments := comments m;
          multi := multi m; blank := blank m;
          single_comments :=
            append_found (single_comments m) (search "Single comments" line);
          current_file := current_file m |}
  else m.

Definition read_lines (lines : list string) : metrics :=
  foldl process_line initial lines.

End Loop.

End RawMetrics.


(** ** Further callables and classes of the examples *)

Module Examples.

(** A class whose instances [copy.deepcopy] refuses, as a file object or a
    lock, and whose text does not depend on its state. *)
Definition Handle : pyclass :=
  {| cls_name := "Handle"; cls_eq := EqByState; cls_repr := ReprOpaque;
     cls_copyable := false |}.

(** A function that unbinds the global [name]:
    [[
    def forget():
        globals().pop(name, None)
    ]] *)
Definition forget (name : string) (w : Pure.world pyval) (args : list pyval)
    (kwargs : list (string * pyval)) : result (Pure.outcome pyval) :=
  Return {| Pure.returned := PNone;
            Pure.args_post := args;
            Pure.kwargs_post := kwargs;
            Pure.world_post :=
              {| Pure.globals := delete name (Pure.globals w);
                 Pure.random_getstate := Pure.random_getstate w |} |}.

(** Module globals with one binding. *)
Definition bound (name : string) (value : pyval) : Pure.world pyval :=
  {| Pure.globals := {[ name := value ]}; Pure.random_getstate := 0 |}.

(** A search that finds 12 after every label. *)
Definition found_12 (label line : string) : option Z := Some 12%Z.

End Examples.

(* ================================================================== *)
(** * Part II: properties                                              *)
(* ================================================================== *)

(** ** Loops *)

Lemma for_each_app {A St : Type} (body : St → A → result St) (xs ys : list A) (s : St) :
  for_each body (xs ++ ys) s = (s' ← for_each body xs s; for_each body ys s').
Proof.
  revert s. induction xs as [|x xs IH]; intros s; simpl; [done|].
  destruct (body s x) as [s'|e]; simpl; [apply IH | done].
Qed.

Lemma comprehension_length {A B : Type} (f : A → result B) (items : list A) ys :
  comprehension f items = Return ys → length ys = length items.
Proof.
  revert ys. induction items as [|x items IH]; intros ys; simpl.
  - by intros [= <-].
  - destruct (f x) as [y|e]; simpl; [|done].
    destruct (comprehension f items) as [ys'|e]; simpl; [|done].
    intros [= <-]. simpl. f_equal. by apply IH.
Qed.

(** Looping over the indices [start .. len(xs)-1] and reading [xs[i]] is
    looping over the elements of [xs] from [start] on. *)
Lemma for_each_range_lookup {A St : Type} (body : St → A → result St)
    (xs : list A) (start : nat) (s : St) :
  for_each
    (λ s i, match xs !! i with
            | Some x => body s x
            | None => Raise (IndexError "list index out of range")
            end)
    (py_range start (length xs)) s
  = for_each body (drop start xs) s.
Proof.
  unfold py_range.
  destruct (decide (length xs ≤ start)) as [Hle|Hlt].
  { rewrite drop_ge by done. by replace (length xs - start) with 0 by lia. }
  assert (∃ n, n = length xs - start) as [n Hn] by eauto.
  rewrite <- Hn. revert start s Hlt Hn.
  induction n as [|n IH]; intros start s Hlt Hn; [lia|].
  destruct (lookup_lt_is_Some_2 xs start) as [x Hx]; [lia|].
  rewrite (drop_S _ _ _ Hx). simpl. rewrite Hx.
  destruct (body s x) as [s'|e]; simpl; [|done].
  destruct (decide (length xs ≤ S start)) as [Hle|Hlt'].
  - rewrite drop_ge by done. by replace n with 0 by lia.
  - apply IH; lia.
Qed.

(** ** compose and pipe *)

(** C7: for every finite list [fs] of unary callables and every [x],
    compose of [fs] applied to [x] equals pipe of the reversed [fs]
    applied to [x], exceptions included; with no function at all both are
    the identity. *)
Theorem compose_pipe_reversed {V : Type} (fs : list (V → result V)) (x : V) :
  HigherOrder.compose fs x = HigherOrder.pipe (rev fs) x
  ∧ HigherOrder.compose [] x = Return x
  ∧ HigherOrder.pipe [] x = Return x.
Proof.
  split; [|done].
  destruct fs as [|f fs]; [done|].
  unfold HigherOrder.compose, HigherOrder.pipe.
  destruct (rev (f :: fs)) as [|g gs] eqn:Hrev; [|done].
  apply (f_equal length) in Hrev. rewrite length_rev in Hrev. done.
Qed.

(** ** map_reduce *)

Lemma for_each_pure {A St : Type} (f : St → A → St) (xs : list A) (s : St) :
  for_each (λ s x, Return (f s x)) xs s = Return (foldl f s xs).
Proof. revert s. induction xs as [|x xs IH]; intros s; simpl; [done | apply IH]. Qed.

Lemma comprehension_pure {A B : Type} (f : A → B) (xs : list A) :
  comprehension (λ x, Return (f x)) xs = Return (map f xs).
Proof. induction xs as [|x xs IH]; simpl; [done | by rewrite IH]. Qed.

(** With a seed that is not [None] the loop starts at index 0. *)
Lemma map_reduce_fn_seeded mapper reducer (initial_value : pyval) collection :
  initial_value ≠ PNone →
  HigherOrder.map_reduce_fn mapper reducer initial_value collection
  = (mapped ← comprehension mapper collection;
     for_each reducer mapped initial_value).
Proof.
  intros Hinit. unfold HigherOrder.map_reduce_fn.
  destruct (comprehension mapper collection) as [mapped|e]; simpl; [|done].
  destruct mapped as [|first rest] eqn:Hmapped; [done|].
  rewrite <- Hmapped.
  replace (HigherOrder.is_not_None initial_value) with true
    by (by destruct initial_value).
  by rewrite for_each_range_lookup.
Qed.


(** C8: with a provided initial value (one that is not [None], the test the
    code makes), the callable returned by [map_reduce] maps every element of
    the sequence, then folds the mapped results from left to right starting
    from the initial value; on the empty sequence it returns the initial
    value.  The sum of squares seeded by 0 gives 30 on [1,2,3,4] and 0 on
    the empty list. *)
Theorem map_reduce_provided_initial mapper reducer (initial : pyval)
    (collection : list pyval) :
  initial ≠ PNone →
  HigherOrder.map_reduce mapper reducer (Some initial) collection
  = (mapped ← comprehension mapper collection;
     for_each reducer mapped initial)
  ∧ HigherOrder.map_reduce mapper reducer (Some initial) [] = Return initial
  ∧ HigherOrder.map_reduce Tests.square Tests.add (Some (PInt 0))
      [PInt 1; PInt 2; PInt 3; PInt 4] = Return (PInt 30)
  ∧ HigherOrder.map_reduce Tests.square Tests.add (Some (PInt 0)) [] = Return (PInt 0).
Proof.
  intros Hinit. split; [|done].
  unfold HigherOrder.map_reduce. simpl default.
  by apply map_reduce_fn_seeded.
Qed.

Lemma map_reduce_provided_initial_witness :
  PInt 0 ≠ PNone
  ∧ HigherOrder.map_reduce Tests.square Tests.add (Some (PInt 0)) [PInt 2; PInt 3]
    = Return (PInt 13).
Proof.
  split; [discriminate|].
  destruct (map_reduce_provided_initial Tests.square Tests.add (PInt 0) [PInt 2; PInt 3])
    as [-> _]; [discriminate | reflexivity].
Defined.

(** For a mapper and a reducer that never raise, this is [foldl] over
    [map]. *)
Corollary map_reduce_foldl (m : pyval → pyval) (r : pyval → pyval → pyval)
    (initial : pyval) (collection : list pyval) :
  initial ≠ PNone →
  HigherOrder.map_reduce (λ x, Return (m x)) (λ a b, Return (r a b))
    (Some initial) collection
  = Return (foldl r initial (map m collection)).
Proof.
  intros Hinit. unfold HigherOrder.map_reduce. simpl default.
  rewrite map_reduce_fn_seeded by done.
  rewrite comprehension_pure. simpl. apply for_each_pure.
Qed.


(** The product of [2, 3, 4] without an initial value, as in the tests. *)
Example map_reduce_product :
  HigherOrder.map_reduce (λ x, Return x) Tests.mul None [PInt 2; PInt 3; PInt 4]
  = Return (PInt 24).
Proof. reflexivity. Qed.

(** ** curry *)

Lemma curried_partial {V : Type} (fn : list V → gmap string V → result V)
    (fn_arity : Z) (args : list V) (kwargs : gmap string V) :
  (Z.of_nat (length args) + Z.of_nat (size kwargs) < fn_arity)%Z →
  curried fn fn_arity args kwargs = Return (Inner args kwargs).
Proof. intros Hlt. unfold curried. by rewrite bool_decide_eq_false_2 by lia. Qed.

Lemma curried_saturated {V : Type} (fn : list V → gmap string V → result V)
    (fn_arity : Z) (args : list V) (kwargs : gmap string V) :
  (fn_arity ≤ Z.of_nat (length args) + Z.of_nat (size kwargs))%Z →
  curried fn fn_arity args kwargs = (v ← fn args kwargs; Return (Value v)).
Proof. intros Hle. unfold curried. by rewrite bool_decide_eq_true_2 by lia. Qed.

(** C6: let [f] have [n ≥ 2] required parameters and let [group1],
    [group2] be non-empty lists of [n] positional values in all.  The
    inferred arity is [n]; [curry(f)] applied to [group1] returns the closure
    holding [group1]; that closure applied to [group2] calls [f] on
    [group1] followed by [group2]; and [curry(f)] applied to all [n] values
    at once calls [f] on them directly. *)
Theorem curry_two_groups {V : Type} (f : list V → gmap string V → result V)
    (parameters : list parameter) (n : nat) (group1 group2 : list V) :
  required_args parameters = n →
  2 ≤ n →
  group1 ≠ [] →
  group2 ≠ [] →
  length group1 + length group2 = n →
  fn_arity (Return parameters) None = Return (Z.of_nat n)
  ∧ curried f (Z.of_nat n) group1 ∅ = Return (Inner group1 ∅)
  ∧ inner f (Z.of_nat n) group1 ∅ group2 ∅
    = (v ← f (group1 ++ group2) ∅; Return (Value v))
  ∧ curried f (Z.of_nat n) (group1 ++ group2) ∅
    = (v ← f (group1 ++ group2) ∅; Return (Value v)).
Proof.
  intros Hreq Hn Hg1 Hg2 Hlen.
  assert (0 < length group2) by (destruct group2; [done | simpl; lia]).
  split; [by rewrite <- Hreq|].
  split; [apply curried_partial; rewrite map_size_empty; lia|].
  unfold inner.
  rewrite (left_id_L (∅ : gmap string V) (∪)).
  split; apply curried_saturated; rewrite length_app, map_size_empty; lia.
Qed.

Lemma curry_two_groups_witness :
  inner Tests.add3 (Z.of_nat 3) [PInt 1] ∅ [PInt 2; PInt 3] ∅
  = Return (Value (PInt 6)).
Proof.
  destruct (curry_two_groups Tests.add3 Tests.add3_signature 3
              [PInt 1] [PInt 2; PInt 3]) as (_ & _ & -> & _);
    [reflexivity | lia | discriminate | discriminate | reflexivity | reflexivity].
Defined.

(** The curried [add] of the tests, one argument at a time. *)
Example curry_one_by_one :
  curried Tests.add3 3 [PInt 1] ∅ = Return (Inner [PInt 1] ∅)
  ∧ inner Tests.add3 3 [PInt 1] ∅ [PInt 2] ∅ = Return (Inner [PInt 1; PInt 2] ∅)
  ∧ inner Tests.add3 3 [PInt 1; PInt 2] ∅ [PInt 3] ∅ = Return (Value (PInt 6)).
Proof. repeat split. Qed.

(** ** memoize *)

Section MemoizeFacts.
Context {A K R : Type} `{Countable K}.
Variable fn : A → result R.
Variable make_key : A → result K.

Lemma run_cons max_size st args calls :
  run fn max_size make_key st (args :: calls)
  = run fn max_size make_key (memoized fn max_size make_key st args).1 calls.
Proof. done. Qed.

Lemma run_snoc max_size st calls args :
  run fn max_size make_key st (calls ++ [args])
  = (memoized fn max_size make_key (run fn max_size make_key st calls) args).1.
Proof. unfold run. by rewrite foldl_app. Qed.

(** A hit under [max_size]: the key moves to the end of [order], [fn] is
    not called. *)
Lemma memoized_hit m st args key cached removed :
  make_key args = Return key →
  cache st !! key = Some cached →
  list_remove_first key (order st) = Some removed →
  memoized fn (Some m) make_key st args = (set_order (removed ++ [key]) st, Return cached).
Proof. intros Hkey Hcached Hrm. unfold memoized. by rewrite Hkey, Hcached, Hrm. Qed.

(** A miss that leaves the cache within [max_size]. *)
Lemma memoized_miss_fits m st args key res :
  make_key args = Return key →
  cache st !! key = None →
  fn args = Return res →
  (Z.of_nat (S (length (order st))) ≤ m)%Z →
  memoized fn (Some m) make_key st args
  = ({| cache := <[key := res]> (cache st);
        order := order st ++ [key];
        invoked := invoked st ++ [args] |}, Return res).
Proof.
  intros Hkey Hmiss Hres Hfits. unfold memoized.
  rewrite Hkey, Hmiss, Hres. simpl.
  rewrite bool_decide_eq_false_2; [done|].
  rewrite length_app. simpl. lia.
Qed.

(** A miss that overflows [max_size]: the head of [order] is dropped from
    [order] and from the cache. *)
Lemma memoized_miss_evicts m st args key res oldest_key rest cached :
  make_key args = Return key →
  cache st !! key = None →
  fn args = Return res →
  (m < Z.of_nat (S (length (order st))))%Z →
  order st ++ [key] = oldest_key :: rest →
  <[key := res]> (cache st) !! oldest_key = Some cached →
  memoized fn (Some m) make_key st args
  = ({| cache := delete oldest_key (<[key := res]> (cache st));
        order := rest;
        invoked := invoked st ++ [args] |}, Return res).
Proof.
  intros Hkey Hmiss Hres Hover Horder Hold. unfold memoized.
  rewrite Hkey, Hmiss, Hres. simpl.
  rewrite bool_decide_eq_true_2 by (rewrite length_app; simpl; lia).
  rewrite Horder. simpl. by rewrite Hold.
Qed.

(** A miss always calls [fn], whatever happens next. *)
Lemma memoized_miss_invokes max_size st args key :
  make_key args = Return key →
  cache st !! key = None →
  invokes fn max_size make_key st args.
Proof.
  intros Hkey Hmiss. unfold invokes, memoized. rewrite Hkey, Hmiss.
  destruct (fn args) as [res|e]; [|done].
  destruct max_size as [m|]; [|done]. simpl.
  case_bool_decide; [|done].
  destruct (order st ++ [key]) as [|oldest_key rest]; [done|]. simpl.
  by destruct (<[key:=res]> (cache st) !! oldest_key).
Qed.

Section FourKeys.
Variables (a1 a2 a3 a4 : A) (k1 k2 k3 k4 : K) (r1 r2 r3 r4 : R).
Hypothesis Hk1 : make_key a1 = Return k1.
Hypothesis Hk2 : make_key a2 = Return k2.
Hypothesis Hk3 : make_key a3 = Return k3.
Hypothesis Hk4 : make_key a4 = Return k4.
Hypothesis Hr1 : fn a1 = Return r1.
Hypothesis Hr2 : fn a2 = Return r2.
Hypothesis Hr3 : fn a3 = Return r3.
Hypothesis Hr4 : fn a4 = Return r4.
Hypothesis Hdistinct : NoDup [k1; k2; k3; k4].

Lemma four_keys_distinct :
  k1 ≠ k2 ∧ k1 ≠ k3 ∧ k1 ≠ k4 ∧ k2 ≠ k3 ∧ k2 ≠ k4 ∧ k3 ≠ k4.
Proof using Hdistinct.
  rewrite !list.NoDup_cons, !not_elem_of_cons in Hdistinct.
  by destruct Hdistinct as ((? & ? & ? & _) & (? & ? & _) & (? & _) & _).
Qed.

(** The state after the three first misses. *)
Lemma after_three_misses :
  run fn (Some 3%Z) make_key fresh [a1; a2; a3]
  = {| cache := <[k3 := r3]> (<[k2 := r2]> (<[k1 := r1]> ∅));
       order := [k1; k2; k3];
       invoked := [a1; a2; a3] |}.
Proof using Hk1 Hk2 Hk3 Hr1 Hr2 Hr3 Hdistinct.
  destruct four_keys_distinct as (? & ? & ? & ? & ? & ?).
  rewrite !run_cons.
  rewrite (memoized_miss_fits 3 fresh a1 k1 r1); [|done|done|done|simpl; lia].
  simpl fst.
  erewrite (memoized_miss_fits 3 _ a2 k2 r2); [|done|by simplify_map_eq|done|simpl; lia].
  simpl fst.
  erewrite (memoized_miss_fits 3 _ a3 k3 r3); [|done|by simplify_map_eq|done|simpl; lia].
  done.
Qed.

(** Touching [k2] after that is a hit that moves [k2] behind [k3]. *)
Lemma after_touching_k2 :
  run fn (Some 3%Z) make_key fresh [a1; a2; a3; a2]
  = {| cache := <[k3 := r3]> (<[k2 := r2]> (<[k1 := r1]> ∅));
       order := [k1; k3; k2];
       invoked := [a1; a2; a3] |}.
Proof using Hk1 Hk2 Hk3 Hr1 Hr2 Hr3 Hdistinct.
  destruct four_keys_distinct as (? & ? & ? & ? & ? & ?).
  change [a1; a2; a3; a2] with ([a1; a2; a3] ++ [a2]).
  rewrite run_snoc, after_three_misses.
  erewrite (memoized_hit 3 _ a2 k2 r2 [k1; k3]); [done|done|by simplify_map_eq|].
  simpl. rewrite decide_False by done. by rewrite decide_True.
Qed.

(** C4 (amended): with [max_size = 3] and four distinct keys, after the
    misses on [k1], [k2], [k3] the miss on [k4] evicts [k1], and a later
    call with [k1] invokes [f] again.  If [k2] is touched after [k3] (a hit,
    which does not invoke [f] and moves [k2] to the most recently used end
    of the order), the miss on [k4] still evicts [k1], the least recently
    used key: [k3] stays cached, and the order is then [k3], [k2], [k4]. *)
Theorem lru_evicts_least_recently_used :
  let m := memoized fn (Some 3%Z) make_key in
  let after := run fn (Some 3%Z) make_key fresh in
  evicts fn (Some 3%Z) make_key (after [a1; a2; a3]) a4 k1
  ∧ invokes fn (Some 3%Z) make_key (after [a1; a2; a3; a4]) a1
  ∧ m (after [a1; a2; a3]) a2
    = (set_order [k1; k3; k2] (after [a1; a2; a3]), Return r2)
  ∧ evicts fn (Some 3%Z) make_key (after [a1; a2; a3; a2]) a4 k1
  ∧ cache (after [a1; a2; a3; a2; a4]) !! k3 = Some r3
  ∧ order (after [a1; a2; a3; a2; a4]) = [k3; k2; k4].
Proof using All.
  destruct four_keys_distinct as (? & ? & ? & ? & ? & ?).
  intros m after. subst m after.
  assert (run fn (Some 3%Z) make_key fresh [a1; a2; a3; a4]
          = {| cache := delete k1 (<[k4 := r4]>
                 (<[k3 := r3]> (<[k2 := r2]> (<[k1 := r1]> ∅))));
               order := [k2; k3; k4];
               invoked := [a1; a2; a3; a4] |}) as Hfour.
  { change [a1; a2; a3; a4] with ([a1; a2; a3] ++ [a4]).
    rewrite run_snoc, after_three_misses.
    by erewrite (memoized_miss_evicts 3 _ a4 k4 r4 k1 [k2; k3; k4] r1);
      [|done|by simplify_map_eq|done|simpl; lia|done|by simplify_map_eq]. }
  assert (run fn (Some 3%Z) make_key fresh [a1; a2; a3; a2; a4]
          = {| cache := delete k1 (<[k4 := r4]>
                 (<[k3 := r3]> (<[k2 := r2]> (<[k1 := r1]> ∅))));
               order := [k3; k2; k4];
               invoked := [a1; a2; a3; a4] |}) as Htouched.
  { change [a1; a2; a3; a2; a4] with ([a1; a2; a3; a2] ++ [a4]).
    rewrite run_snoc, after_touching_k2.
    by erewrite (memoized_miss_evicts 3 _ a4 k4 r4 k1 [k3; k2; k4] r1);
      [|done|by simplify_map_eq|done|simpl; lia|done|by simplify_map_eq]. }
  split.
  { split; [rewrite after_three_misses; simpl; by simplify_map_eq|].
    change (cache (run fn (Some 3%Z) make_key fresh [a1; a2; a3; a4]) !! k1 = None).
    rewrite Hfour. simpl. by simplify_map_eq. }
  split.
  { apply (memoized_miss_invokes _ _ _ k1); [done|].
    rewrite Hfour. simpl. by simplify_map_eq. }
  split.
  { rewrite after_three_misses.
    erewrite (memoized_hit 3 _ a2 k2 r2 [k1; k3]); [done|done|by simplify_map_eq|].
    simpl. rewrite decide_False by done. by rewrite decide_True. }
  split.
  { split; [rewrite after_touching_k2; simpl; by simplify_map_eq|].
    change (cache (run fn (Some 3%Z) make_key fresh [a1; a2; a3; a2; a4]) !! k1 = None).
    rewrite Htouched. simpl. by simplify_map_eq. }
  rewrite Htouched. simpl. split; [by simplify_map_eq | done].
Qed.

End FourKeys.
End MemoizeFacts.

Lemma lru_evicts_least_recently_used_witness :
  evicts (λ a : Z, Return (a * 10)%Z) (Some 3%Z) (λ a : Z, Return a)
    (run (λ a : Z, Return (a * 10)%Z) (Some 3%Z) (λ a : Z, Return a) fresh
       [1; 2; 3; 2]%Z) 4%Z 1%Z.
Proof.
  apply (lru_evicts_least_recently_used (λ a : Z, Return (a * 10)%Z)
           (λ a : Z, Return a) 1 2 3 4 1 2 3 4 10 20 30 40)%Z;
    try reflexivity.
  apply (bool_decide_unpack _). vm_compute. reflexivity.
Defined.

(** C4, as stated, fails: after the calls with keys 1, 2, 3 and the touch of
    2, the miss on 4 does not evict 3. *)
Lemma lru_touch_does_not_evict_k3 :
  ¬ evicts (λ a : Z, Return (a * 10)%Z) (Some 3%Z) (λ a : Z, Return a)
      (run (λ a : Z, Return (a * 10)%Z) (Some 3%Z) (λ a : Z, Return a) fresh
         [1; 2; 3; 2]%Z) 4%Z 3%Z.
Proof. intros [_ Hgone]. vm_compute in Hgone. discriminate. Qed.

(** Without [max_size] no call touches [order]. *)
Lemma memoized_unbounded_order {A K R : Type} `{Countable K}
    (fn : A → result R) (make_key : A → result K) (st : memo) (args : A) :
  order (memoized fn None make_key st args).1 = order st.
Proof.
  unfold memoized. destruct (make_key args) as [key|e]; [|done].
  destruct (cache st !! key); [done|]. by destruct (fn args).
Qed.

Lemma run_unbounded_order {A K R : Type} `{Countable K}
    (fn : A → result R) (make_key : A → result K) (calls : list A) (st : memo) :
  order (run fn None make_key st calls) = order st.
Proof.
  revert st. induction calls as [|args calls IH]; intros st; [done|].
  rewrite run_cons, IH. apply memoized_unbounded_order.
Qed.

(** Without [max_size], [clear_cache] gives back the state of a new cache
    (the log of past invocations aside). *)
Lemma clear_cache_unbounded {A K R : Type} `{Countable K}
    (fn : A → result R) (make_key : A → result K) (calls : list A) :
  let st := clear_cache (run fn None make_key fresh calls) in
  cache st = ∅ ∧ order st = [].
Proof. simpl. split; [done|]. apply (run_unbounded_order fn make_key calls fresh). Qed.

(** Under [max_size], [clear_cache] leaves [order] as it was: once [order]
    is full, the next miss pops a key that is no longer cached and the
    deletion raises KeyError. *)
Lemma clear_cache_stale_order {A K R : Type} `{Countable K}
    (fn : A → result R) (make_key : A → result K) (m : Z) (st : memo)
    (args : A) (key oldest_key : K) (rest : list K) (res : R) :
  make_key args = Return key →
  fn args = Return res →
  order st = oldest_key :: rest →
  oldest_key ≠ key →
  (m < Z.of_nat (S (length (order st))))%Z →
  order (clear_cache st) = order st
  ∧ (memoized fn (Some m) make_key (clear_cache st) args).2
    = Raise (KeyError "oldest_key").
Proof.
  intros Hkey Hres Horder Hne Hfull. split; [done|].
  unfold memoized. rewrite Hkey. simpl. rewrite lookup_empty, Hres. simpl.
  rewrite bool_decide_eq_true_2 by (rewrite length_app; simpl; lia).
  rewrite Horder. simpl. by rewrite lookup_insert_ne, lookup_empty.
Qed.

(** C5: [clear_cache] empties the cache but not the recency list.  With
    [max_size = 3], after calls with keys 1, 2, 3 and [clear_cache], the
    list still holds 1, 2, 3, and the call with key 4, which a new cache
    answers with [f]'s result, raises KeyError. *)
Theorem clear_cache_then_miss_raises :
  let f := λ a : Z, Return (a * 10)%Z in
  let key := λ a : Z, Return a in
  let st := clear_cache (run f (Some 3%Z) key fresh [1; 2; 3]%Z) in
  cache st = ∅
  ∧ order st = [1; 2; 3]%Z
  ∧ (memoized f (Some 3%Z) key st 4%Z).2 = Raise (KeyError "oldest_key")
  ∧ (memoized f (Some 3%Z) key fresh 4%Z).2 = Return 40%Z.
Proof. repeat split. Qed.

(** ** trampoline *)

Section TrampolineFacts.
Context {Args V : Type}.
Variable callable : V → bool.
Variable is_type : V → bool.
Variable call0 : V → option (result V).
Variable func : Args → result V.





End TrampolineFacts.

Lemma zfact_fact (n : nat) : zfact n = Z.of_nat (fact n).
Proof.
  induction n as [|n IH]; [done|].
  change (zfact (S n)) with (Z.of_nat (S n) * zfact n)%Z.
  change (fact (S n)) with (S n * fact n). rewrite IH. lia.
Qed.

(** The decorated factorial returns [acc * n!]; each level of the recursion
    needs one iteration of its own loop and one more level of nesting. *)
Lemma factorial_unfold (depth fuel : nat) (n acc : Z) :
  factorial depth fuel n acc
  = if (n <=? 1)%Z then Some (Return (FInt acc))
    else
      match fuel, depth with
      | S fuel', S depth =>
          match factorial depth fuel (n - 1) (n * acc) with
          | Some (Return next) =>
              bounce fact_callable (λ _, false)
                (λ v, match v with
                      | FLambda n acc => factorial depth fuel (n - 1) (n * acc)
                      | FInt _ =>
                          Some (Raise (TypeError "'int' object is not callable"))
                      end) fuel' next
          | Some (Raise e) => Some (Raise e)
          | None => None
          end
      | _, _ => None
      end.
Proof.
  destruct depth, fuel; simpl; unfold trampolined, factorial_body;
    by destruct (n <=? 1)%Z.
Qed.


(** That nesting is needed: with fewer levels than steps the innermost
    call does not come back. *)
Lemma factorial_needs_depth (depth : nat) :
  ∀ fuel n acc, (Z.of_nat depth + 2 ≤ n)%Z → factorial depth fuel n acc = None.
Proof.
  induction depth as [|depth IH]; intros fuel n acc Hn;
    rewrite factorial_unfold, (proj2 (Z.leb_gt _ _)) by lia.
  - by destruct fuel.
  - destruct fuel as [|fuel]; [done|]. by rewrite IH by lia.
Qed.




(** A loop that never meets a value to stop at runs out of any fuel. *)
Lemma bounce_forever {V : Type} (loop : V) (fuel : nat) :
  bounce (λ _, true) (λ _, false) (λ _, Some (Return loop)) fuel loop = None.
Proof. induction fuel as [|fuel IH]; [done | apply IH]. Qed.

(** ** Verification loops *)

Lemma for_each_unit_ok {A : Type} (body : unit → A → result unit) (items : list A) :
  for_each body items () = Return () ↔ ∀ x, x ∈ items → body () x = Return ().
Proof.
  induction items as [|x items IH]; simpl.
  - split; [|done]. intros _ y Hy. by apply elem_of_nil in Hy.
  - destruct (body () x) as [[]|e] eqn:Hx; simpl.
    + rewrite IH. split.
      * intros Hall y [->|Hy]%elem_of_cons; [done | by apply Hall].
      * intros Hall y Hy. apply Hall. by right.
    + split; [done|]. intros Hall.
      specialize (Hall x (list_elem_of_here _ _)). congruence.
Qed.

Lemma for_each_unit_raise {A : Type} (body : unit → A → result unit)
    (items : list A) (e : exn) :
  for_each body items () = Raise e → ∃ x, x ∈ items ∧ body () x = Raise e.
Proof.
  induction items as [|x items IH]; simpl; [done|].
  destruct (body () x) as [[]|e'] eqn:Hx; simpl.
  - intros (y & Hy & Hraise)%IH. exists y. split; [by right | done].
  - intros [= ->]. exists x. split; [by left | done].
Qed.

(** The loop raises what the first failing item raises. *)
Lemma for_each_unit_first {A : Type} (body : unit → A → result unit)
    (passed : list A) (x : A) (rest : list A) (e : exn) :
  (∀ y, y ∈ passed → body () y = Return ()) →
  body () x = Raise e →
  for_each body (passed ++ x :: rest) () = Raise e.
Proof.
  intros Hpassed Hx. rewrite for_each_app.
  rewrite (proj2 (for_each_unit_ok body passed) Hpassed). simpl. by rewrite Hx.
Qed.

Lemma for_each_unit_total {A : Type} (body : unit → A → result unit) (items : list A) :
  for_each body items () = Return () ∨ ∃ e, for_each body items () = Raise e.
Proof. destruct (for_each body items ()) as [[]|e]; eauto. Qed.

Lemma elem_of_enumerate {A : Type} (l : list A) (i : nat) (x : A) :
  (i, x) ∈ enumerate l ↔ l !! i = Some x.
Proof.
  unfold enumerate. rewrite list_elem_of_lookup. split.
  - intros [j Hj]. apply lookup_zip_with_Some in Hj as (i' & x' & [= -> ->] & Hi & Hx).
    apply lookup_seq in Hi as [-> _]. done.
  - intros Hx. exists i. apply lookup_zip_with_Some. exists i, x.
    split; [done|]. split; [|done].
    apply lookup_seq. split; [done|]. by eapply lookup_lt_Some.
Qed.

(** ** immutable *)

Section ImmutableFacts.
Context {V : Type} `{PyObject V}.

(** What the comparison in the verification loops comes to: it passes when
    [!=] answers False, and otherwise raises only if the two texts
    differ. *)
Lemma immutable_verify_cases (violation : exn) (before after : V) :
  Immutable.verify violation before after
  = match py_ne before after with
    | Return false => Return ()
    | _ => if bool_decide (py_str before ≠ py_str after) then Raise violation
           else Return ()
    end.
Proof.
  unfold Immutable.verify. by destruct (py_ne before after) as [[]|e].
Qed.

Lemma immutable_verify_raises (violation : exn) (before after : V) (e : exn) :
  Immutable.verify violation before after = Raise e
  ↔ e = violation ∧ mismatch before after.
Proof.
  rewrite immutable_verify_cases. unfold mismatch.
  destruct (py_ne before after) as [[]|e']; try case_bool_decide;
    (split; [intros [= <-] || intros [=] | intros (-> & Hne & Hstr)]);
    try done; by repeat split.
Qed.

Lemma immutable_verify_passes (violation : exn) (before after : V) :
  Immutable.verify violation before after = Return () ↔ ¬ mismatch before after.
Proof.
  rewrite immutable_verify_cases. unfold mismatch.
  destruct (py_ne before after) as [[]|e']; try case_bool_decide;
    (split; [intros Hok [Hne Hstr] | intros Hnot]); try done.
  all: exfalso; apply Hnot; by split.
Qed.

(** Where the texts tell unequal values apart, the verifiers' comparison is
    the one of the specification. *)
Lemma mismatch_snapshots_differ (before after : V) :
  (py_ne before after = Return true → py_str before ≠ py_str after) →
  mismatch before after ↔ snapshots_differ before after.
Proof.
  intros Htext. unfold mismatch, snapshots_differ.
  destruct (py_ne before after) as [[]|e]; split.
  - by left.
  - intros _. split; [done | by apply Htext].
  - by intros [].
  - intros [|[[e [=]] _]]; done.
  - intros [_ Hstr]. right. eauto.
  - intros [|[_ Hstr]]; done.
Qed.

Variable to_immutable : V → V.
Variable fn_name : string.
Variable param_names : list string.
Variable fn : list V → list (string * V) → result (Immutable.outcome V).

Section OneCall.
Variables (args copied_args args_before : list V).
Variables (kwargs copied_kwargs kwargs_before : list (string * V)).
Variable out : Immutable.outcome V.
Hypothesis Hcopied_args : comprehension deepcopy args = Return copied_args.
Hypothesis Hcopied_kwargs : dict_comprehension deepcopy kwargs = Return copied_kwargs.
Hypothesis Hargs_before : comprehension deepcopy copied_args = Return args_before.
Hypothesis Hkwargs_before :
  dict_comprehension deepcopy copied_kwargs = Return kwargs_before.
Hypothesis Hcall : fn copied_args copied_kwargs = Return out.

Lemma immutable_wrapper_unfold :
  Immutable.immutable to_immutable fn_name param_names fn args kwargs
  = (_ ← for_each
           (λ _ '(i, (before, after)),
              Immutable.verify (Immutable.positional_violation fn_name param_names i)
                before after)
           (enumerate (zip args_before (Immutable.args_post out))) ();
     _ ← for_each
           (λ _ '(key, before),
              after ← getitem (Immutable.kwargs_post out) key;
              Immutable.verify (Immutable.keyword_violation fn_name key) before after)
           kwargs_before ();
     Return (Immutable.returned out)).
Proof using Hcopied_args Hcopied_kwargs Hargs_before Hkwargs_before Hcall.
  unfold Immutable.immutable, Immutable.wrapper.
  rewrite Hcopied_args. simpl. rewrite Hcopied_kwargs. simpl.
  rewrite Hargs_before. simpl. rewrite Hkwargs_before. simpl.
  by rewrite Hcall.
Qed.

(** The wrapped function cannot drop a keyword argument of its caller. *)
Hypothesis Hkeys :
  ∀ key before, (key, before) ∈ kwargs_before →
  ∃ after, getitem (Immutable.kwargs_post out) key = Return after.

(** What [immutable(f)] does on a call that returns: it raises a violation
    exactly when an argument mismatches its snapshot, and returns the value
    of [f] otherwise. *)
Lemma immutable_raises_iff_mismatch :
  (Immutable.is_violation fn_name param_names (Immutable.immutable to_immutable fn_name param_names fn args kwargs)
   ↔ Immutable.some_mismatch args_before kwargs_before out)
  ∧ (¬ Immutable.some_mismatch args_before kwargs_before out →
     Immutable.immutable to_immutable fn_name param_names fn args kwargs = Return (Immutable.returned out)).
Proof using All.
  rewrite immutable_wrapper_unfold.
  unfold Immutable.some_mismatch, Immutable.some_argument.
  remember (for_each _ (enumerate _) ()) as positional eqn:Hpositional.
  remember (for_each _ kwargs_before ()) as keyword eqn:Hkeyword.
  assert (∀ e, positional = Raise e →
            ∃ i before after,
              e = Immutable.positional_violation fn_name param_names i
              ∧ args_before !! i = Some before
              ∧ Immutable.args_post out !! i = Some after
              ∧ mismatch before after) as Hpos_raise.
  { subst positional.
    intros e ([i [before after]] & Hin & Hraise)%for_each_unit_raise.
    apply immutable_verify_raises in Hraise as [-> Hmis].
    apply elem_of_enumerate, lookup_zip_with_Some in Hin
      as (b & a & [= <- <-] & Hb & Ha). eauto 10. }
  assert (positional = Return () →
            ∀ i before after, args_before !! i = Some before →
              Immutable.args_post out !! i = Some after →
              ¬ mismatch before after) as Hpos_ok.
  { subst positional. intros Hok i before after Hb Ha.
    apply immutable_verify_passes with (violation :=
      Immutable.positional_violation fn_name param_names i).
    apply (proj1 (for_each_unit_ok _ _) Hok (i, (before, after))).
    apply elem_of_enumerate, lookup_zip_with_Some. eauto. }
  assert (∀ e, keyword = Raise e →
            ∃ key before after,
              e = Immutable.keyword_violation fn_name key
              ∧ (key, before) ∈ kwargs_before
              ∧ getitem (Immutable.kwargs_post out) key = Return after
              ∧ mismatch before after) as Hkw_raise.
  { subst keyword.
    intros e ([key before] & Hin & Hraise)%for_each_unit_raise.
    destruct (Hkeys key before Hin) as [after Hafter].
    rewrite Hafter in Hraise. simpl in Hraise.
    apply immutable_verify_raises in Hraise as [-> Hmis]. eauto 10. }
  assert (keyword = Return () →
            ∀ key before after, (key, before) ∈ kwargs_before →
              getitem (Immutable.kwargs_post out) key = Return after →
              ¬ mismatch before after) as Hkw_ok.
  { subst keyword. intros Hok key before after Hin Hafter.
    apply immutable_verify_passes with (violation :=
      Immutable.keyword_violation fn_name key).
    specialize (proj1 (for_each_unit_ok _ _) Hok (key, before) Hin) as Hbody.
    simpl in Hbody. by rewrite Hafter in Hbody. }
  clear Hpositional Hkeyword.
  destruct positional as [[]|e]; simpl.
  2:{ destruct (Hpos_raise e eq_refl) as (i & before & after & -> & Hb & Ha & Hmis).
      split; [|intros []; left; eauto 10].
      split; [intros _; left; eauto 10 | intros _; left; by exists i]. }
  destruct keyword as [[]|e]; simpl.
  2:{ destruct (Hkw_raise e eq_refl) as (key & before & after & -> & Hin & Ha & Hmis).
      split; [|intros []; right; eauto 10].
      split; [intros _; right; eauto 10 | intros _; right; by exists key]. }
  split; [|done]. split.
  - intros [[i [=]]|[key [=]]].
  - intros [(i & before & after & Hb & Ha & Hmis)
           |(key & before & after & Hin & Ha & Hmis)].
    + by destruct (Hpos_ok eq_refl i before after).
    + by destruct (Hkw_ok eq_refl key before after).
Qed.

(** Where the texts tell unequal values apart, [immutable(f)] raises a
    violation exactly when some argument differs from its snapshot in the
    sense of the specification. *)
Corollary immutable_raises_iff_differs :
  (∀ before after : V,
     py_ne before after = Return true → py_str before ≠ py_str after) →
  Immutable.is_violation fn_name param_names
    (Immutable.immutable to_immutable fn_name param_names fn args kwargs)
  ↔ Immutable.some_argument snapshots_differ args_before kwargs_before out.
Proof using All.
  intros Htext. rewrite (proj1 immutable_raises_iff_mismatch).
  unfold Immutable.some_mismatch, Immutable.some_argument.
  split; (intros [(i & before & after & Hb & Ha & Hd)
                 |(key & before & after & Hin & Ha & Hd)];
          [left; exists i, before, after | right; exists key, before, after];
          repeat split; try done;
          by apply (mismatch_snapshots_differ before after (Htext before after))).
Qed.

End OneCall.

End ImmutableFacts.

(** [immutable] on the functions of the tests: the list that is appended to
    is reported under its parameter name, and a function that appends to a
    copy passes. *)
Example immutable_bad_add_to_list :
  Immutable.immutable id "bad_add_to_list" ["lst"] Tests.bad_add_to_list
    [PList [PInt 1; PInt 2; PInt 3]] []
  = Raise (ValueError "Immutability violation in bad_add_to_list: modified input positional argument 'lst'").
Proof. reflexivity. Qed.

Example immutable_add_to_list :
  Immutable.immutable id "add_to_list" ["lst"] Tests.add_to_list
    [PList [PInt 1; PInt 2; PInt 3]] []
  = Return (PList [PInt 1; PInt 2; PInt 3; PInt 4]).
Proof. reflexivity. Qed.

(** C1: [immutable(set_v)] on a [Box], whose text hides its state.  The
    call changes the state from 1 to 2 and the comparison with the snapshot
    answers that they differ, but the [raise] this triggers sits inside the
    [try] and is caught by its own handler, which finds the two texts equal:
    the wrapper returns.  The same change on an object whose text shows the
    state is reported. *)
Theorem immutable_misses_change_hidden_from_text :
  let immutable_set_v := Immutable.immutable id "set_v" ["b"] Tests.set_v in
  py_ne (PObj Tests.Box 1) (PObj Tests.Box 2) = Return true
  ∧ snapshots_differ (PObj Tests.Box 1) (PObj Tests.Box 2)
  ∧ Tests.set_v [PObj Tests.Box 1] []
    = Return {| Immutable.returned := PNone;
                Immutable.args_post := [PObj Tests.Box 2];
                Immutable.kwargs_post := [] |}
  ∧ immutable_set_v [PObj Tests.Box 1] [] = Return PNone
  ∧ immutable_set_v [PObj Tests.Cell 1] []
    = Raise (ValueError "Immutability violation in set_v: modified input positional argument 'b'").
Proof. repeat split. by left. Qed.

(** ** pure *)

Section PureFacts.
Context {V : Type} `{PyObject V}.
Variable fn_name : string.
Variable param_names : list string.
Variable global_names : list string.
Variable fn : Pure.world V → list V → list (string * V) → result (Pure.outcome V).
Variable ignore_params : list string.
Variable allow_logging : bool.

Lemma pure_verify_raises (violation : exn) (original current : V) (e : exn) :
  Pure.verify violation original current = Raise e
  ↔ e = violation ∧ mismatch original current.
Proof. apply immutable_verify_raises. Qed.

Lemma pure_verify_passes (violation : exn) (original current : V) :
  Pure.verify violation original current = Return () ↔ ¬ mismatch original current.
Proof. apply immutable_verify_passes. Qed.

(** The loop that fills [func_globals] records no binding named [random],
    whatever [allow_random] is: the names it records are the tracked
    ones. *)
Lemma capture_globals_names (g : gmap string V) (func_globals : list (string * V)) :
  Pure.capture_globals global_names allow_logging g = Return func_globals →
  func_globals.*1
  = filter (λ name, Pure.is_tracked allow_logging g name = true)
      (Pure.closure_globals global_names g).
Proof.
  unfold Pure.capture_globals.
  generalize (Pure.closure_globals global_names g) as names.
  assert (∀ names acc func_globals,
    for_each
      (λ func_globals name,
         match g !! name with
         | Some value =>
             if Pure.is_tracked allow_logging g name then
               snapshot ←
                 try_except (deepcopy value) is_TypeError_or_ValueError
                   (λ _, Return (str_object (py_str value)));
               Return (func_globals ++ [(name, snapshot)])
             else Return func_globals
         | None => Return func_globals
         end) names acc = Return func_globals →
    func_globals.*1
    = acc.*1 ++ filter (λ name, Pure.is_tracked allow_logging g name = true) names)
    as Hgen.
  { induction names as [|name names IH]; intros acc fg; simpl.
    - intros [= <-]. by rewrite app_nil_r.
    - rewrite filter_cons.
      destruct (Pure.is_tracked allow_logging g name) eqn:Htracked.
      + destruct (g !! name) as [value|] eqn:Hname.
        * destruct (try_except _ _ _) as [snapshot|e]; simpl; [|done].
          intros Hrest%IH. rewrite Hrest, fmap_app. simpl.
          by rewrite <- app_assoc.
        * unfold Pure.is_tracked in Htracked. by rewrite Hname in Htracked.
      + destruct (g !! name); simpl; by intros Hrest%IH. }
  intros names Hcapture. by apply (Hgen names []).
Qed.

Lemma capture_globals_not_random (g : gmap string V)
    (func_globals : list (string * V)) (name : string) (snapshot : V) :
  Pure.capture_globals global_names allow_logging g = Return func_globals →
  (name, snapshot) ∈ func_globals →
  name ≠ "random".
Proof.
  intros Hnames%capture_globals_names Hin.
  assert (name ∈ func_globals.*1) as Hname.
  { apply list_elem_of_fmap. by exists (name, snapshot). }
  rewrite Hnames in Hname. apply list_elem_of_filter in Hname as [Htracked _].
  unfold Pure.is_tracked in Htracked.
  destruct (g !! name); [|done].
  apply andb_prop in Htracked as [Hne _]. by apply bool_decide_eq_true in Hne.
Qed.

(** On a recorded binding the check is the same under both values of
    [allow_random]. *)
Lemma check_global_allow_random (g : gmap string V) (name : string)
    (original_value : V) (allow_random : bool) :
  name ≠ "random" →
  Pure.check_global fn_name allow_random g name original_value
  = Pure.check_global fn_name false g name original_value.
Proof.
  intros Hne. unfold Pure.check_global.
  by rewrite bool_decide_eq_false_2 by done.
Qed.

(** The flag [allow_random] changes nothing in what the wrapper returns or
    raises. *)
Lemma pure_allow_random_irrelevant (allow_random : bool) (w : Pure.world V)
    (args : list V) (kwargs : list (string * V)) :
  Pure.wrapper fn_name param_names global_names fn ignore_params allow_random
    allow_logging w args kwargs
  = Pure.wrapper fn_name param_names global_names fn ignore_params false
      allow_logging w args kwargs.
Proof.
  unfold Pure.wrapper.
  destruct (comprehension deepcopy args) as [args_copy|e]; simpl; [|done].
  destruct (dict_comprehension deepcopy kwargs) as [kwargs_copy|e]; simpl; [|done].
  destruct (Pure.capture_globals global_names allow_logging (Pure.globals w))
    as [func_globals|e] eqn:Hcapture; simpl; [|done].
  destruct (fn w args kwargs) as [out|e]; simpl; [|done].
  destruct (for_each _ (enumerate _) ()) as [[]|e]; simpl; [|done].
  destruct (for_each _ kwargs_copy ()) as [[]|e]; simpl; [|done].
  destruct (Pure.compare_random_state _ _).
  assert (∀ items : list (string * V),
    (∀ name snapshot, (name, snapshot) ∈ items → name ≠ "random") →
    for_each
      (λ _ '(name, original_value),
         Pure.check_global fn_name allow_random
           (Pure.globals (Pure.world_post out)) name original_value) items ()
    = for_each
        (λ _ '(name, original_value),
           Pure.check_global fn_name false
             (Pure.globals (Pure.world_post out)) name original_value) items ())
    as Hloop.
  { induction items as [|[name snapshot] items IH]; intros Hitems; [done|].
    simpl. rewrite check_global_allow_random by (eapply Hitems; by left).
    destruct (Pure.check_global _ _ _ _ _) as [[]|e]; simpl; [|done].
    apply IH. intros n s Hin. eapply Hitems. by right. }
  rewrite Hloop; [done|].
  intros name snapshot. apply (capture_globals_not_random _ _ _ _ Hcapture).
Qed.

Section OneCall.
Variable allow_random : bool.
Variable w : Pure.world V.
Variables (args args_copy : list V) (kwargs kwargs_copy func_globals : list (string * V)).
Variable out : Pure.outcome V.
Hypothesis Hargs_copy : comprehension deepcopy args = Return args_copy.
Hypothesis Hkwargs_copy : dict_comprehension deepcopy kwargs = Return kwargs_copy.
Hypothesis Hcapture :
  Pure.capture_globals global_names allow_logging (Pure.globals w)
  = Return func_globals.
Hypothesis Hcall : fn w args kwargs = Return out.

Lemma pure_wrapper_unfold :
  Pure.wrapper fn_name param_names global_names fn ignore_params allow_random
    allow_logging w args kwargs
  = (_ ← for_each
           (λ _ '(i, (original, current)),
              Pure.check_positional fn_name param_names ignore_params
                allow_logging i original current)
           (enumerate (zip args_copy (Pure.args_post out))) ();
     _ ← for_each
           (λ _ '(key, original),
              Pure.check_keyword fn_name ignore_params allow_logging
                (Pure.kwargs_post out) key original)
           kwargs_copy ();
     _ ← for_each
           (λ _ '(name, original_value),
              Pure.check_global fn_name allow_random
                (Pure.globals (Pure.world_post out)) name original_value)
           func_globals ();
     Return (Pure.returned out)).
Proof using Hargs_copy Hkwargs_copy Hcapture Hcall.
  unfold Pure.wrapper.
  rewrite Hargs_copy. simpl. rewrite Hkwargs_copy. simpl.
  rewrite Hcapture. simpl. rewrite Hcall. simpl.
  by destruct (Pure.compare_random_state _ _).
Qed.

(** No argument that the loops look at mismatches its snapshot. *)
Hypothesis Hpositional :
  ∀ i original current,
    args_copy !! i = Some original →
    Pure.args_post out !! i = Some current →
    Pure.is_tracked_positional param_names ignore_params allow_logging i current = true →
    ¬ mismatch original current.
Hypothesis Hkeyword :
  ∀ key original,
    (key, original) ∈ kwargs_copy →
    ∃ current,
      getitem (Pure.kwargs_post out) key = Return current
      ∧ (Pure.is_tracked_keyword ignore_params allow_logging key current = true →
         ¬ mismatch original current).

Lemma pure_positional_pass :
  for_each
    (λ _ '(i, (original, current)),
       Pure.check_positional fn_name param_names ignore_params allow_logging
         i original current)
    (enumerate (zip args_copy (Pure.args_post out))) ()
  = Return ().
Proof using Hpositional.
  apply for_each_unit_ok. intros [i [original current]] Hin.
  apply elem_of_enumerate, lookup_zip_with_Some in Hin
    as (o & c & [= <- <-] & Ho & Hc).
  specialize (Hpositional i original current Ho Hc).
  unfold Pure.check_positional, Pure.is_tracked_positional in *.
  destruct (bool_decide (i < length param_names) && _); [done|].
  destruct (allow_logging && is_Logger current); [done|].
  apply pure_verify_passes. by apply Hpositional.
Qed.

Lemma pure_keyword_pass :
  for_each
    (λ _ '(key, original),
       Pure.check_keyword fn_name ignore_params allow_logging
         (Pure.kwargs_post out) key original)
    kwargs_copy ()
  = Return ().
Proof using Hkeyword.
  apply for_each_unit_ok. intros [key original] Hin.
  destruct (Hkeyword key original Hin) as (current & Hcurrent & Hsame).
  unfold Pure.check_keyword, Pure.is_tracked_keyword in *.
  destruct (bool_decide (key ∈ ignore_params)); [done|].
  rewrite Hcurrent. simpl.
  destruct (allow_logging && is_Logger current); [done|].
  apply pure_verify_passes. by apply Hsame.
Qed.

Lemma check_global_passes (name : string) (snapshot current : V) :
  Pure.globals (Pure.world_post out) !! name = Some current →
  ¬ mismatch snapshot current →
  Pure.check_global fn_name allow_random (Pure.globals (Pure.world_post out))
    name snapshot = Return ().
Proof.
  intros Hcurrent Hsame. unfold Pure.check_global, Pure.global_getitem.
  destruct (bool_decide (name = "random") && allow_random); [done|].
  rewrite Hcurrent. simpl. unfold mismatch in Hsame.
  destruct (py_ne snapshot current) as [[]|e]; simpl; try done;
    case_bool_decide; try done; exfalso; apply Hsame; by split.
Qed.



End OneCall.
End PureFacts.



(** [pure] on an addition: nothing changes, the sum is returned. *)
Example pure_add_passes :
  Pure.wrapper "add" ["a"; "b"] [] Tests.pure_add [] false true
    (Tests.one_global "global_counter" 0) [PInt 5; PInt 3] []
  = Return (PInt 8).
Proof. reflexivity. Qed.

(** C3: with [allow_random=False] a function that changes the global named
    [random] passes [pure]: the loop that records the globals leaves the
    name [random] out whatever [allow_random] is, so the test on
    [allow_random] in the verification loop never applies.  The same change
    to a global of another name is reported. *)
Theorem pure_never_tracks_random :
  let call name allow_random :=
    Pure.wrapper "bump" [] [name] (Tests.bump name) [] allow_random true
      (Tests.one_global name 0) [] [] in
  (∃ out,
     Tests.bump "random" (Tests.one_global "random" 0) [] [] = Return out
     ∧ Pure.globals (Tests.one_global "random" 0) !! "random" = Some (PInt 0)
     ∧ Pure.globals (Pure.world_post out) !! "random" = Some (PInt 1))
  ∧ py_ne (PInt 0) (PInt 1) = Return true
  ∧ call "random" false = Return PNone
  ∧ call "random" true = Return PNone
  ∧ call "seed" false
    = Raise (ValueError "Pure function violation in bump: modified global variable 'seed'").
Proof.
  repeat split. eexists. repeat split.
Qed.

(* ================================================================== *)
(** * Part III: further properties of the code                         *)
(* ================================================================== *)

(** ** compose, pipe, partial *)

Lemma compose_is_loop {V : Type} (fs : list (V → result V)) (x : V) :
  compose fs x = for_each (λ res f, f res) (rev fs) x.
Proof. by destruct fs. Qed.

Lemma pipe_is_loop {V : Type} (fs : list (V → result V)) (x : V) :
  pipe fs x = for_each (λ res f, f res) fs x.
Proof. by destruct fs. Qed.

(** X1: composing the functions [fs] followed by the functions [gs] is
    composing [gs], then composing [fs] on the result; when a function of
    [gs] raises, no function of [fs] is called and the exception is the
    result. *)
Theorem compose_app {V : Type} (fs gs : list (V → result V)) (x : V) :
  compose (fs ++ gs) x = (y ← compose gs x; compose fs y).
Proof.
  rewrite !compose_is_loop, rev_app_distr, for_each_app.
  destruct (for_each _ (rev gs) x) as [y|e]; simpl; [|done].
  by rewrite compose_is_loop.
Qed.

(** X2: piping through [fs] followed by [gs] is piping through [fs], then
    through [gs]; an exception in [fs] ends the pipe. *)
Theorem pipe_app {V : Type} (fs gs : list (V → result V)) (x : V) :
  pipe (fs ++ gs) x = (y ← pipe fs x; pipe gs y).
Proof.
  rewrite !pipe_is_loop, for_each_app.
  destruct (for_each _ fs x) as [y|e]; simpl; [|done].
  by rewrite pipe_is_loop.
Qed.

(** X3: a partial application of a partial application is the partial
    application of the two lists of fixed arguments in order, the keywords
    fixed last winning over those fixed first; and fixing nothing gives the
    function back. *)
Theorem partial_of_partial {V : Type} (func : list V → gmap string V → result V)
    (args1 args2 more_args : list V) (kwargs1 kwargs2 more_kwargs : gmap string V) :
  Combinators.partially_applied (Combinators.partially_applied func args1 kwargs1)
    args2 kwargs2 more_args more_kwargs
  = Combinators.partially_applied func (args1 ++ args2) (kwargs2 ∪ kwargs1)
      more_args more_kwargs
  ∧ Combinators.partially_applied func [] ∅ more_args more_kwargs
    = func more_args more_kwargs.
Proof.
  unfold Combinators.partially_applied. split.
  - by rewrite app_assoc, (assoc_L (∪)).
  - by rewrite (right_id_L ∅ (∪)).
Qed.

(** ** curry *)

Section CurriedCallsFacts.
Context {V : Type}.
Variable fn : list V → gmap string V → result V.
Variable fn_arity : Z.
Variable call_value : V → list V → result (@curried_result V).

(** While the arguments do not reach the arity, each call returns a closure
    that holds all the arguments given so far. *)
Lemma call_results_accumulate (groups : list (list V)) :
  ∀ args : list V,
  (Z.of_nat (length (args ++ concat groups)) < fn_arity)%Z →
  for_each (Combinators.call_result fn fn_arity call_value) groups (Inner args ∅)
  = Return (Inner (args ++ concat groups) ∅).
Proof.
  induction groups as [|g groups IH]; intros args Hlt; simpl.
  - by rewrite app_nil_r.
  - simpl in Hlt. rewrite app_assoc in Hlt.
    unfold inner. rewrite (left_id_L (∅ : gmap string V) (∪)).
    rewrite curried_partial.
    + simpl. rewrite IH by done. by rewrite app_assoc.
    + rewrite map_size_empty. rewrite length_app in Hlt. lia.
Qed.

(** X4: a chain of calls of a curried function, with positional arguments
    given in any number of groups (empty ones included), calls the function
    once, at the first call where the arguments given so far reach the
    arity, on all of them in the order they were given. *)
Theorem curry_chain (first : list V) (middle : list (list V)) (last : list V) :
  (Z.of_nat (length (first ++ concat middle)) < fn_arity)%Z →
  (fn_arity ≤ Z.of_nat (length (first ++ concat middle ++ last)))%Z →
  Combinators.call_chain fn fn_arity call_value first (middle ++ [last])
  = (v ← fn (first ++ concat middle ++ last) ∅; Return (Value v)).
Proof.
  intros Hlt Hle. unfold Combinators.call_chain.
  rewrite curried_partial
    by (rewrite map_size_empty; rewrite length_app in Hlt; lia).
  simpl. rewrite for_each_app, call_results_accumulate by done. simpl.
  unfold inner. rewrite (left_id_L (∅ : gmap string V) (∪)).
  rewrite curried_saturated.
  - rewrite <- app_assoc. by destruct (fn _ _).
  - rewrite map_size_empty, <- app_assoc. lia.
Qed.

End CurriedCallsFacts.

Lemma curry_chain_witness :
  Combinators.call_chain Tests.add3 3 (λ _ _, Raise (TypeError "not callable"))
    [PInt 1] ([[]; [PInt 2]] ++ [[PInt 3]])
  = Return (Value (PInt 6)).
Proof.
  rewrite (curry_chain Tests.add3 3 _ [PInt 1] [[]; [PInt 2]] [PInt 3]);
    [reflexivity | simpl; lia | simpl; lia].
Defined.



(** ** The enhanced wrapper of higher_order *)

(** X6: both [wrapper.compose(funcs...)] and [wrapper.pipe(funcs...)] call the
    wrapped function first, on the value given, and then the other
    functions: [compose] from the last to the first, [pipe] from the first
    to the last; so [wrapper.compose] of some functions is [wrapper.pipe] of
    the same functions reversed. *)
Theorem enhanced_wrapper_runs_first {V : Type}
    (fn : list V → gmap string V → result V) (funcs : list (V → result V)) (x : V) :
  Combinators.enhanced_compose fn funcs x = (y ← fn [x] ∅; compose funcs y)
  ∧ Combinators.enhanced_pipe fn funcs x = (y ← fn [x] ∅; pipe funcs y)
  ∧ Combinators.enhanced_compose fn funcs x
    = Combinators.enhanced_pipe fn (rev funcs) x.
Proof.
  unfold Combinators.enhanced_compose, Combinators.enhanced_pipe.
  rewrite !compose_is_loop, !pipe_is_loop, rev_app_distr. simpl.
  unfold Combinators.wrapper1 at 1 2 3 4, Combinators.wrapper.
  repeat split; destruct (fn [x] ∅) as [y|e]; simpl; try done.
  - by rewrite compose_is_loop.
  - by rewrite pipe_is_loop.
Qed.

(** ** memoize: what the cache keeps *)

Lemma list_remove_first_elem_of {K : Type} `{EqDecision K} (k : K) (l : list K) :
  k ∈ l → ∃ removed, list_remove_first k l = Some removed ∧ l ≡ₚ k :: removed.
Proof.
  induction l as [|x l IH]; [by intros ?%elem_of_nil|].
  intros Hin. simpl. destruct (decide (x = k)) as [->|Hne]; [by eexists|].
  apply elem_of_cons in Hin as [->|Hin]; [done|].
  destruct (IH Hin) as (removed & -> & Hperm). eexists. split; [done|].
  rewrite Hperm. apply Permutation_swap.
Qed.

Section MemoizeMoreFacts.
Context {A K R : Type} `{Countable K}.
Variable fn : A → result R.
Variable make_key : A → result K.

(** Under [max_size], a call on a consistent state leaves a consistent
    state whose recency list is within the bound, and raises only what the
    key computation or the function raises. *)
Lemma memoized_keeps_consistent (m : Z) (st : memo) (args : A) :
  Combinators.lru_consistent st →
  (Z.of_nat (length (order st)) ≤ Z.max 0 m)%Z →
  let st' := (memoized fn (Some m) make_key st args).1 in
  Combinators.lru_consistent st'
  ∧ (Z.of_nat (length (order st')) ≤ Z.max 0 m)%Z
  ∧ ∀ e, (memoized fn (Some m) make_key st args).2 = Raise e →
         (make_key args = Raise e ∨ fn args = Raise e)
         ∧ cache st' = cache st ∧ order st' = order st.
Proof.
  intros [Hnodup Hdom] Hlen. simpl.
  destruct (make_key args) as [key|e] eqn:Hkey.
  2:{ unfold memoized. rewrite Hkey. simpl.
      split; [by split|]. split; [done|]. intros e' [= ->]. by split; [left|]. }
  destruct (cache st !! key) as [cached|] eqn:Hcached.
  { assert (key ∈ order st) as Hin by (apply Hdom; eauto).
    destruct (list_remove_first_elem_of key (order st) Hin)
      as (removed & Hremoved & Hperm).
    rewrite (memoized_hit fn make_key m st args key cached removed) by done.
    simpl. assert (removed ++ [key] ≡ₚ order st) as Hperm'.
    { rewrite Hperm. by rewrite <- Permutation_cons_append. }
    split; [split|split]; simpl.
    - by rewrite Hperm'.
    - intros k. rewrite Hperm'. apply Hdom.
    - by rewrite Hperm'.
    - intros e [=]. }
  assert (key ∉ order st) as Hnotin.
  { intros Hin%Hdom. rewrite Hcached in Hin. by destruct Hin. }
  destruct (fn args) as [res|e] eqn:Hres.
  2:{ unfold memoized. rewrite Hkey, Hcached, Hres. simpl.
      split; [by split|]. split; [done|]. intros e' [= ->]. by split; [right|]. }
  assert (NoDup (order st ++ [key])) as Hnodup'.
  { apply NoDup_app. split; [done|]. split; [|apply NoDup_singleton].
    by intros k Hk ->%list_elem_of_singleton. }
  assert (∀ k, k ∈ order st ++ [key] ↔ is_Some (<[key:=res]> (cache st) !! k))
    as Hdom'.
  { intros k. rewrite elem_of_app, list_elem_of_singleton, Hdom.
    destruct (decide (key = k)) as [->|Hne].
    - rewrite lookup_insert_eq. split; [eauto | by right].
    - rewrite lookup_insert_ne by done. split; [by intros [|] | by left]. }
  destruct (decide (Z.of_nat (S (length (order st))) ≤ m)%Z) as [Hfits|Hover].
  { rewrite (memoized_miss_fits fn make_key m st args key res) by done. simpl.
    split; [by split|]. split; [|by intros e [=]].
    rewrite length_app. simpl. lia. }
  destruct (order st ++ [key]) as [|oldest_key rest] eqn:Horder.
  { by destruct (order st). }
  destruct (proj1 (Hdom' oldest_key) (list_elem_of_here _ _)) as [cached Hold].
  rewrite (memoized_miss_evicts fn make_key m st args key res oldest_key rest cached)
    by (done || lia).
  simpl. apply list.NoDup_cons in Hnodup' as [Hfresh Hnodup'].
  split; [split|split]; simpl.
  - done.
  - intros k. split.
    + intros Hk. rewrite lookup_delete_ne by (by intros ->).
      apply Hdom'. by right.
    + intros Hk. destruct (decide (oldest_key = k)) as [->|Hne].
      * rewrite lookup_delete_eq in Hk. by destruct Hk.
      * rewrite lookup_delete_ne in Hk by done.
        apply Hdom' in Hk. by apply elem_of_cons in Hk as [->|Hk].
  - apply (f_equal length) in Horder. rewrite length_app in Horder.
    simpl in Horder. lia.
  - intros e [=].
Qed.

Lemma fresh_consistent (m : Z) :
  Combinators.lru_consistent (fresh : @memo A K R _ _)
  ∧ (Z.of_nat (length (order (fresh : @memo A K R _ _))) ≤ Z.max 0 m)%Z.
Proof.
  repeat split; simpl; [apply NoDup_nil_2 | by intros ?%elem_of_nil | | lia].
  rewrite lookup_empty. by intros [].
Qed.

Lemma run_keeps_consistent (m : Z) (calls : list A) :
  ∀ st : memo,
  Combinators.lru_consistent st →
  (Z.of_nat (length (order st)) ≤ Z.max 0 m)%Z →
  Combinators.lru_consistent (run fn (Some m) make_key st calls)
  ∧ (Z.of_nat (length (order (run fn (Some m) make_key st calls))) ≤ Z.max 0 m)%Z.
Proof.
  induction calls as [|args calls IH]; intros st Hst Hlen; [done|].
  rewrite run_cons.
  destruct (memoized_keeps_consistent m st args Hst Hlen) as (Hst' & Hlen' & _).
  by apply IH.
Qed.

Lemma consistent_size (st : @memo A K R _ _) :
  Combinators.lru_consistent st → size (cache st) = length (order st).
Proof.
  intros [Hnodup Hdom].
  rewrite <- size_dom, <- (size_list_to_set (C := gset K) (order st)) by done.
  f_equal. apply set_eq. intros k.
  by rewrite elem_of_dom, elem_of_list_to_set, Hdom.
Qed.

(** X7: under [max_size], after any sequence of calls on a new cache, the
    recency list holds each cached key exactly once and no other key, and
    the cache holds at most [max_size] entries (none when [max_size] is 0 or
    negative). *)
Theorem memoize_cache_within_max_size (m : Z) (calls : list A) :
  let st := run fn (Some m) make_key fresh calls in
  NoDup (order st)
  ∧ (∀ k, k ∈ order st ↔ is_Some (cache st !! k))
  ∧ (Z.of_nat (size (cache st)) ≤ Z.max 0 m)%Z.
Proof.
  simpl.
  destruct (fresh_consistent m) as [Hfresh Hlen].
  destruct (run_keeps_consistent m calls fresh Hfresh Hlen) as [Hst Hlen'].
  rewrite (consistent_size _ Hst). by destruct Hst.
Qed.






(** X11: with a [max_size] of 0 or less nothing stays cached: after any
    calls on a new cache the cache and the recency list are empty, so every
    call whose key can be computed calls the function. *)
Theorem memoize_max_size_zero_caches_nothing (m : Z) (calls : list A) :
  (m ≤ 0)%Z →
  let st := run fn (Some m) make_key fresh calls in
  cache st = ∅
  ∧ order st = []
  ∧ ∀ args key, make_key args = Return key →
      invokes fn (Some m) make_key st args.
Proof.
  intros Hm. simpl.
  assert (∀ st : memo, cache st = ∅ → order st = [] →
            cache (run fn (Some m) make_key st calls) = ∅
            ∧ order (run fn (Some m) make_key st calls) = []) as Hempty.
  { induction calls as [|args calls IH]; intros st Hcache Horder; [done|].
    rewrite run_cons.
    assert (cache (memoized fn (Some m) make_key st args).1 = ∅
            ∧ order (memoized fn (Some m) make_key st args).1 = []) as [? ?].
    { destruct st as [c o i]. simpl in Hcache, Horder. subst c o.
      unfold memoized. simpl.
      destruct (make_key args) as [key|e]; simpl; [|done].
      rewrite lookup_empty.
      destruct (fn args) as [res|e]; simpl; [|done].
      rewrite bool_decide_eq_true_2 by lia. simpl.
      rewrite lookup_insert_eq. simpl.
      by rewrite delete_insert_eq, delete_empty. }
    by apply IH. }
  destruct (Hempty fresh eq_refl eq_refl) as [Hcache Horder].
  repeat split; try done.
  intros args key Hkey. apply (memoized_miss_invokes _ _ _ _ _ key); [done|].
  by rewrite Hcache, lookup_empty.
Qed.

(** X12: without [max_size], [clear_cache] gives the behaviour of a new
    cache back: after any calls and [clear_cache], a call returns or raises
    what it does on a new cache and leaves the same cache. *)
Theorem clear_cache_unbounded_as_new (calls : list A) (args : A) :
  let st := clear_cache (run fn None make_key fresh calls) in
  (memoized fn None make_key st args).2 = (memoized fn None make_key fresh args).2
  ∧ cache (memoized fn None make_key st args).1
    = cache (memoized fn None make_key fresh args).1
  ∧ order (memoized fn None make_key st args).1 = [].
Proof.
  simpl. pose proof (run_unbounded_order fn make_key calls fresh) as Horder.
  revert Horder. generalize (run fn None make_key fresh calls). intros st Horder.
  unfold memoized, clear_cache. simpl.
  destruct (make_key args) as [key|e]; simpl; [|done].
  rewrite lookup_empty.
  by destruct (fn args) as [res|e].
Qed.

End MemoizeMoreFacts.




Lemma memoize_max_size_zero_caches_nothing_witness :
  cache (run (λ a : Z, Return (a * 10)%Z) (Some 0%Z) (λ a : Z, Return a) fresh
           [1; 2; 1]%Z) = ∅.
Proof.
  refine (proj1 (memoize_max_size_zero_caches_nothing (λ a : Z, Return (a * 10)%Z)
                   (λ a : Z, Return a) 0 [1; 2; 1]%Z _)).
  lia.
Defined.

(** ** trampoline: what the loop returns *)

Section TrampolineMoreFacts.
Context {Args V : Type}.
Variable callable : V → bool.
Variable is_type : V → bool.
Variable call0 : V → option (result V).
Variable func : Args → result V.

Lemma bounce_returns_no_thunk (fuel : nat) :
  ∀ r0 r : V,
  bounce callable is_type call0 fuel r0 = Some (Return r) →
  keeps_bouncing callable is_type r = false.
Proof.
  induction fuel as [|fuel IH]; intros r0 r; simpl;
    destruct (keeps_bouncing callable is_type r0) eqn:Hr0; try done;
    try (by intros [= <-]).
  destruct (call0 r0) as [[next|e]|]; try done. apply IH.
Qed.

(** X13: a value returned by a trampolined function is never a callable
    that is not a type: it is not callable, or it is a type. *)
Theorem trampoline_returns_no_thunk (fuel : nat) (args : Args) (r : V) :
  trampolined callable is_type call0 func fuel args = Some (Return r) →
  callable r = false ∨ is_type r = true.
Proof.
  unfold trampolined. destruct (func args) as [r0|e]; [|done].
  intros Hstop%bounce_returns_no_thunk. unfold keeps_bouncing in Hstop.
  destruct (callable r); [right | by left].
  by destruct (is_type r).
Qed.


End TrampolineMoreFacts.

Lemma trampoline_returns_no_thunk_witness :
  fact_callable (FInt 6) = false ∨ (λ _ : fact_val, false) (FInt 6) = true.
Proof.
  apply (trampoline_returns_no_thunk fact_callable (λ _, false)
           (λ v, match v with
                 | FLambda n acc => Some (factorial_body (n - 1, n * acc)%Z)
                 | FInt _ => Some (Raise (TypeError "'int' object is not callable"))
                 end)
           factorial_body 2 (3, 1)%Z (FInt 6)).
  reflexivity.
Defined.


(** ** to_immutable *)

Lemma fval_induction (P : Freeze.fval → Prop) :
  (∀ a, P (Freeze.FAtom a)) →
  (∀ items, Forall P items → P (Freeze.FList items)) →
  (∀ items, Forall P items → P (Freeze.FTuple items)) →
  (∀ items, Forall (λ item, P item.1 ∧ P item.2) items → P (Freeze.FDict items)) →
  (∀ items, Forall P items → P (Freeze.FSet items)) →
  (∀ items, Forall P items → P (Freeze.FFrozenset items)) →
  ∀ v, P v.
Proof.
  intros Hatom Hlist Htuple Hdict Hset Hfrozenset.
  fix IH 1. intros [a|items|items|items|items|items].
  - apply Hatom.
  - apply Hlist. induction items as [|x xs IHxs]; constructor; [apply IH | apply IHxs].
  - apply Htuple. induction items as [|x xs IHxs]; constructor; [apply IH | apply IHxs].
  - apply Hdict. induction items as [|[k v] xs IHxs]; constructor;
      [split; apply IH | apply IHxs].
  - apply Hset. induction items as [|x xs IHxs]; constructor; [apply IH | apply IHxs].
  - apply Hfrozenset.
    induction items as [|x xs IHxs]; constructor; [apply IH | apply IHxs].
Qed.

(** A value without list, dict or set is given back as it is. *)
Lemma to_immutable_frozen (v : Freeze.fval) :
  Freeze.frozen v = true → Freeze.to_immutable v = Return v.
Proof. by destruct v. Qed.

Lemma frozen_unhashable_type (v : Freeze.fval) :
  Freeze.frozen v = true ↔ Freeze.unhashable_type v = None.
Proof.
  induction v as [a|items _|items IH|items _|items _|items IH]
    using fval_induction; simpl; try done.
  - induction IH as [|item items Hitem _ IHitems]; simpl; [done|].
    rewrite andb_true_iff, Hitem, IHitems.
    destruct (Freeze.unhashable_type item); split; try done; by intros [].
  - induction IH as [|item items Hitem _ IHitems]; simpl; [done|].
    rewrite andb_true_iff, Hitem, IHitems.
    destruct (Freeze.unhashable_type item); split; try done; by intros [].
Qed.

Lemma check_hashable_frozen (v : Freeze.fval) :
  Freeze.frozen v = true → Freeze.check_hashable v = Return v.
Proof.
  intros Hv%frozen_unhashable_type. unfold Freeze.check_hashable. by rewrite Hv.
Qed.


(** A comprehension whose function succeeds on each item with a result in
    [P] succeeds with results in [P]. *)
Lemma comprehension_Forall {A B : Type} (f : A → result B) (P : B → Prop)
    (items : list A) :
  Forall (λ item, ∃ y, f item = Return y ∧ P y) items →
  ∃ ys, comprehension f items = Return ys ∧ Forall P ys.
Proof.
  induction 1 as [|item items (y & Hy & HP) _ (ys & Hys & HPs)]; simpl.
  - by exists [].
  - rewrite Hy. simpl. rewrite Hys. simpl. exists (y :: ys). by split; [|constructor].
Qed.

Lemma forallb_Forall_true {A : Type} (f : A → bool) (l : list A) :
  forallb f l = true ↔ Forall (λ x, f x = true) l.
Proof.
  induction l as [|x l IH]; simpl; [by split|].
  rewrite andb_true_iff, IH, Forall_cons. done.
Qed.

(** X15: on a value as Python builds it (hashable dict keys and set
    elements) in which every tuple is hashable, [to_immutable] does not
    raise, its result holds no list, dict or set at any depth, and freezing
    the result again gives the result. *)
Theorem to_immutable_freezes (v : Freeze.fval) :
  Freeze.well_formed v = true →
  Freeze.tuples_frozen v = true →
  ∃ y, Freeze.to_immutable v = Return y
       ∧ Freeze.frozen y = true
       ∧ Freeze.to_immutable y = Return y.
Proof.
  assert (∀ v, Freeze.well_formed v = true → Freeze.tuples_frozen v = true →
            ∃ y, Freeze.to_immutable v = Return y ∧ Freeze.frozen y = true)
    as Hmain.
  { clear v. intros v. induction v as [a|items IH|items _|items IH|items _|items _]
      using fval_induction; intros Hwf Htuples.
    - by exists (Freeze.FAtom a).
    - simpl in Hwf, Htuples. apply forallb_Forall_true in Hwf, Htuples.
      destruct (comprehension_Forall Freeze.to_immutable
                  (λ y, Freeze.frozen y = true) items) as (ys & Hys & Hfrozen).
      { apply Forall_forall. intros item Hin.
        rewrite Forall_forall in IH, Hwf, Htuples. by apply IH; auto. }
      simpl. rewrite Hys. simpl. eexists. split; [done|].
      simpl. by apply forallb_Forall_true.
    - simpl in Htuples. exists (Freeze.FTuple items). by split.
    - simpl in Hwf, Htuples. apply forallb_Forall_true in Hwf, Htuples.
      destruct (comprehension_Forall
                  (λ item, v ← Freeze.to_immutable item.2;
                           Freeze.check_hashable (Freeze.FTuple [item.1; v]))
                  (λ y, Freeze.frozen y = true) items) as (ys & Hys & Hfrozen).
      { apply Forall_forall. intros item Hin.
        rewrite Forall_forall in IH, Hwf, Htuples.
        specialize (Hwf item Hin). specialize (Htuples item Hin).
        apply andb_true_iff in Hwf as [[Hk Hwfk]%andb_true_iff Hwfv].
        apply andb_true_iff in Htuples as [_ Htv].
        destruct (proj2 (IH item Hin) Hwfv Htv) as (y & Hy & Hfy).
        assert (Freeze.frozen (Freeze.FTuple [item.1; y]) = true) as Hpair
          by (simpl; by rewrite Hk, Hfy).
        rewrite Hy. simpl. rewrite check_hashable_frozen by done. eauto. }
      simpl. rewrite Hys. simpl. eexists. split; [done|].
      simpl. by apply forallb_Forall_true.
    - simpl in Hwf. apply forallb_Forall_true in Hwf.
      destruct (comprehension_Forall
                  (λ item, v ← Freeze.to_immutable item; Freeze.check_hashable v)
                  (λ y, Freeze.frozen y = true) items) as (ys & Hys & Hfrozen).
      { apply Forall_forall. intros item Hin.
        rewrite Forall_forall in Hwf. specialize (Hwf item Hin).
        apply andb_true_iff in Hwf as [Hitem _].
        rewrite to_immutable_frozen by done. simpl.
        rewrite check_hashable_frozen by done. eauto. }
      simpl. rewrite Hys. simpl. eexists. split; [done|].
      simpl. by apply forallb_Forall_true.
    - simpl in Hwf. apply forallb_Forall_true in Hwf.
      exists (Freeze.FFrozenset items). split; [done|].
      simpl. apply forallb_Forall_true. eapply Forall_impl; [exact Hwf|].
      simpl. by intros item [? _]%andb_true_iff. }
  intros Hwf Htuples. destruct (Hmain v Hwf Htuples) as (y & Hy & Hfrozen).
  exists y. split; [done|]. split; [done|]. by apply to_immutable_frozen.
Qed.

Lemma to_immutable_freezes_witness :
  ∃ y, Freeze.to_immutable
         (Freeze.FDict [(Freeze.FAtom 1,
                         Freeze.FList [Freeze.FAtom 2; Freeze.FSet [Freeze.FAtom 3]])])
       = Return y
       ∧ Freeze.frozen y = true
       ∧ Freeze.to_immutable y = Return y.
Proof.
  apply to_immutable_freezes; reflexivity.
Defined.



(** ** The verifiers: which violation is reported *)

Lemma lookup_enumerate {A : Type} (l : list A) (j k : nat) (y : A) :
  enumerate l !! j = Some (k, y) ↔ k = j ∧ l !! j = Some y.
Proof.
  unfold enumerate. rewrite lookup_zip_with_Some. split.
  - intros (i & x & [= -> ->] & Hi & Hx). apply lookup_seq in Hi as [-> _]. done.
  - intros [-> Hy]. exists j, y. split; [done|]. split; [|done].
    apply lookup_seq. split; [done|]. by eapply lookup_lt_Some.
Qed.

(** The loop raises what the item of the lowest failing index raises. *)
Lemma for_each_unit_first_index {A : Type} (body : unit → A → result unit)
    (l : list A) (i : nat) (x : A) (e : exn) :
  l !! i = Some x →
  (∀ j y, j < i → l !! j = Some y → body () y = Return ()) →
  body () x = Raise e →
  for_each body l () = Raise e.
Proof.
  intros Hx Hbefore Hraise. rewrite <- (take_drop_middle l i x Hx).
  apply for_each_unit_first; [|done].
  intros y [j Hj]%list_elem_of_lookup.
  apply lookup_take_Some in Hj as [Hj Hlt]. by apply (Hbefore j y).
Qed.

Section VerifierFacts.
Context {V : Type} `{PyObject V}.

(** X17: on a call of [f] that returns, [immutable(f)] reports the
    positional argument of the lowest index that mismatches its snapshot,
    whatever happened to the arguments after it and to the keyword
    arguments: its violation names the parameter of that index, or
    [args[i]] past the parameters. *)
Theorem immutable_reports_first_positional (to_immutable : V → V)
    (fn_name : string) (param_names : list string)
    (fn : list V → list (string * V) → result (Immutable.outcome V))
    (args copied_args args_before : list V)
    (kwargs copied_kwargs kwargs_before : list (string * V))
    (out : Immutable.outcome V) (i : nat) (before after : V) :
  comprehension deepcopy args = Return copied_args →
  dict_comprehension deepcopy kwargs = Return copied_kwargs →
  comprehension deepcopy copied_args = Return args_before →
  dict_comprehension deepcopy copied_kwargs = Return kwargs_before →
  fn copied_args copied_kwargs = Return out →
  args_before !! i = Some before →
  Immutable.args_post out !! i = Some after →
  mismatch before after →
  (∀ j b a, j < i → args_before !! j = Some b →
            Immutable.args_post out !! j = Some a → ¬ mismatch b a) →
  Immutable.immutable to_immutable fn_name param_names fn args kwargs
  = Raise (Immutable.positional_violation fn_name param_names i).
Proof.
  intros Hca Hck Hba Hbk Hcall Hb Ha Hmis Hfirst.
  rewrite (immutable_wrapper_unfold to_immutable fn_name param_names fn
             args copied_args args_before kwargs copied_kwargs kwargs_before out)
    by done.
  rewrite (for_each_unit_first_index _ _ i (i, (before, after))
             (Immutable.positional_violation fn_name param_names i)); [done| | |].
  - apply lookup_enumerate. split; [done|]. apply lookup_zip_with_Some. eauto.
  - intros j [k [b a]] Hlt [-> Hzip]%lookup_enumerate.
    apply lookup_zip_with_Some in Hzip as (b' & a' & [= <- <-] & Hb' & Ha').
    apply immutable_verify_passes. by apply (Hfirst j).
  - by apply immutable_verify_raises.
Qed.

Variable fn_name : string.
Variable param_names : list string.
Variable global_names : list string.
Variable fn : Pure.world V → list V → list (string * V) → result (Pure.outcome V).
Variable ignore_params : list string.
Variable allow_logging : bool.
Variable allow_random : bool.

Section OneCall.
Variable w : Pure.world V.
Variables (args args_copy : list V) (kwargs kwargs_copy func_globals : list (string * V)).
Variable out : Pure.outcome V.
Hypothesis Hargs_copy : comprehension deepcopy args = Return args_copy.
Hypothesis Hkwargs_copy : dict_comprehension deepcopy kwargs = Return kwargs_copy.
Hypothesis Hcapture :
  Pure.capture_globals global_names allow_logging (Pure.globals w)
  = Return func_globals.
Hypothesis Hcall : fn w args kwargs = Return out.

(** X18: on a call of [f] that returns, [pure(f)] reports the positional
    argument of the lowest index among those it looks at (not listed in
    [ignore_params], not a logger under [allow_logging]) that mismatches
    its snapshot; it does so before it looks at the keyword arguments and
    at the globals, whatever became of them. *)
Theorem pure_reports_first_positional (i : nat) (original current : V) :
  args_copy !! i = Some original →
  Pure.args_post out !! i = Some current →
  Pure.is_tracked_positional param_names ignore_params allow_logging i current
  = true →
  mismatch original current →
  (∀ j o c, j < i → args_copy !! j = Some o → Pure.args_post out !! j = Some c →
     Pure.is_tracked_positional param_names ignore_params allow_logging j c = true →
     ¬ mismatch o c) →
  Pure.wrapper fn_name param_names global_names fn ignore_params allow_random
    allow_logging w args kwargs
  = Raise (Pure.positional_violation fn_name param_names i).
Proof using Hargs_copy Hkwargs_copy Hcapture Hcall.
  intros Ho Hc Htracked Hmis Hfirst.
  rewrite (pure_wrapper_unfold fn_name param_names global_names fn ignore_params
             allow_logging allow_random w args args_copy kwargs kwargs_copy
             func_globals out) by done.
  rewrite (for_each_unit_first_index _ _ i (i, (original, current))
             (Pure.positional_violation fn_name param_names i)); [done| | |].
  - apply lookup_enumerate. split; [done|]. apply lookup_zip_with_Some. eauto.
  - intros j [k [o c]] Hlt [-> Hzip]%lookup_enumerate.
    apply lookup_zip_with_Some in Hzip as (o' & c' & [= <- <-] & Ho' & Hc').
    specialize (Hfirst j o c Hlt Ho' Hc').
    unfold Pure.check_positional, Pure.is_tracked_positional in *.
    destruct (bool_decide (j < length param_names) && _); [done|].
    destruct (allow_logging && is_Logger c); [done|].
    apply pure_verify_passes. by apply Hfirst.
  - unfold Pure.check_positional, Pure.is_tracked_positional in *.
    destruct (bool_decide (i < length param_names) && _); [done|].
    destruct (allow_logging && is_Logger current); [done|].
    by apply pure_verify_raises.
Qed.

(** X19: when the wrapped function deletes a tracked global, [pure] does not
    raise a violation: provided the arguments and the globals recorded
    before that one match their snapshots, the KeyError of the lookup of the
    deleted name is what the wrapper raises. *)
Theorem pure_deleted_global_raises_KeyError
    (passed rest : list (string * V)) (name : string) (snapshot : V) :
  (∀ i original current,
     args_copy !! i = Some original →
     Pure.args_post out !! i = Some current →
     Pure.is_tracked_positional param_names ignore_params allow_logging i current
     = true →
     ¬ mismatch original current) →
  (∀ key original,
     (key, original) ∈ kwargs_copy →
     ∃ current,
       getitem (Pure.kwargs_post out) key = Return current
       ∧ (Pure.is_tracked_keyword ignore_params allow_logging key current = true →
          ¬ mismatch original current)) →
  func_globals = passed ++ (name, snapshot) :: rest →
  (∀ n s, (n, s) ∈ passed →
     ∃ c, Pure.globals (Pure.world_post out) !! n = Some c ∧ ¬ mismatch s c) →
  Pure.globals (Pure.world_post out) !! name = None →
  Pure.wrapper fn_name param_names global_names fn ignore_params allow_random
    allow_logging w args kwargs
  = Raise (KeyError name).
Proof using Hargs_copy Hkwargs_copy Hcapture Hcall.
  intros Hpositional Hkeyword Hsplit Hpassed Hdeleted.
  rewrite (pure_wrapper_unfold fn_name param_names global_names fn ignore_params
             allow_logging allow_random w args args_copy kwargs kwargs_copy
             func_globals out) by done.
  rewrite (pure_positional_pass fn_name param_names ignore_params allow_logging
             args_copy out Hpositional).
  rewrite (pure_keyword_pass fn_name ignore_params allow_logging kwargs_copy out
             Hkeyword).
  simpl. rewrite Hsplit.
  rewrite (for_each_unit_first _ passed (name, snapshot) rest (KeyError name));
    [done| |].
  - intros [n s] Hin. destruct (Hpassed n s Hin) as (c & Hc & Hsame).
    by apply (check_global_passes fn_name allow_random out n s c).
  - assert (name ≠ "random") as Hname.
    { apply (capture_globals_not_random _ _ _ _ _ snapshot Hcapture).
      rewrite Hsplit. apply elem_of_app. right. by left. }
    unfold Pure.check_global, Pure.global_getitem.
    rewrite bool_decide_eq_false_2 by done. simpl.
    by rewrite Hdeleted.
Qed.

End OneCall.

(** X20: the flag [allow_random] has no effect on what the wrapper returns
    or raises: two calls that differ in the flag only end alike, on every
    function, world and argument list. *)
Theorem pure_allow_random_has_no_effect (flag flag' : bool) (w : Pure.world V)
    (args : list V) (kwargs : list (string * V)) :
  Pure.wrapper fn_name param_names global_names fn ignore_params flag
    allow_logging w args kwargs
  = Pure.wrapper fn_name param_names global_names fn ignore_params flag'
      allow_logging w args kwargs.
Proof.
  rewrite (pure_allow_random_irrelevant _ _ _ _ _ _ flag).
  by rewrite (pure_allow_random_irrelevant _ _ _ _ _ _ flag').
Qed.

(** A recorded snapshot is the deep copy of the global or, when the copy
    raised TypeError or ValueError, the text of the global as a str. *)
Lemma capture_globals_snapshots (g : gmap string V)
    (func_globals : list (string * V)) :
  Pure.capture_globals global_names allow_logging g = Return func_globals →
  ∀ name snapshot, (name, snapshot) ∈ func_globals →
  ∃ value, g !! name = Some value
           ∧ (deepcopy value = Return snapshot
              ∨ ((∃ e, deepcopy value = Raise e)
                 ∧ snapshot = str_object (py_str value))).
Proof.
  unfold Pure.capture_globals.
  generalize (Pure.closure_globals global_names g) as names.
  assert (∀ names acc func_globals,
    (∀ name snapshot, (name, snapshot) ∈ acc →
       ∃ value, g !! name = Some value
                ∧ (deepcopy value = Return snapshot
                   ∨ ((∃ e, deepcopy value = Raise e)
                      ∧ snapshot = str_object (py_str value)))) →
    for_each
      (λ func_globals name,
         match g !! name with
         | Some value =>
             if Pure.is_tracked allow_logging g name then
               snapshot ←
                 try_except (deepcopy value) is_TypeError_or_ValueError
                   (λ _, Return (str_object (py_str value)));
               Return (func_globals ++ [(name, snapshot)])
             else Return func_globals
         | None => Return func_globals
         end) names acc = Return func_globals →
    ∀ name snapshot, (name, snapshot) ∈ func_globals →
      ∃ value, g !! name = Some value
               ∧ (deepcopy value = Return snapshot
                  ∨ ((∃ e, deepcopy value = Raise e)
                     ∧ snapshot = str_object (py_str value)))) as Hgen.
  { induction names as [|name names IH]; intros acc fg Hacc; simpl.
    - by intros [= <-].
    - destruct (g !! name) as [value|] eqn:Hname; [|by apply IH].
      destruct (Pure.is_tracked allow_logging g name); [|by apply IH].
      destruct (deepcopy value) as [copy|e] eqn:Hcopy; simpl.
      + apply IH. intros n s [Hin|Hin%list_elem_of_singleton]%elem_of_app;
          [by apply Hacc|]. injection Hin as -> ->. eauto.
      + destruct (is_TypeError_or_ValueError e); simpl; [|done].
        apply IH. intros n s [Hin|Hin%list_elem_of_singleton]%elem_of_app;
          [by apply Hacc|]. injection Hin as -> ->. eauto 10. }
  intros names Hcapture. apply (Hgen names [] func_globals); [|done].
  intros name snapshot Hin. by apply elem_of_nil in Hin.
Qed.

(** X21: a tracked global that cannot be deep-copied (the copy raises
    TypeError or ValueError) is recorded by its text.  Provided the text of
    a str is that str, such a global, if the call leaves it as it was,
    passes the verification: it never causes a violation. *)
Theorem pure_uncopyable_global_recorded_by_text (g g' : gmap string V)
    (func_globals : list (string * V)) (name : string) (value snapshot : V)
    (e : exn) :
  (∀ s, py_str (str_object s) = s) →
  Pure.capture_globals global_names allow_logging g = Return func_globals →
  (name, snapshot) ∈ func_globals →
  g !! name = Some value →
  deepcopy value = Raise e →
  g' !! name = Some value →
  snapshot = str_object (py_str value)
  ∧ Pure.check_global fn_name allow_random g' name snapshot = Return ().
Proof.
  intros Hstr Hcapture Hin Hvalue Hcopy Hsame.
  destruct (capture_globals_snapshots g func_globals Hcapture name snapshot Hin)
    as (value' & Hvalue' & Hsnapshot).
  assert (value' = value) as -> by congruence.
  destruct Hsnapshot as [Hok|[_ ->]]; [congruence|].
  split; [done|].
  unfold Pure.check_global, Pure.global_getitem.
  destruct (bool_decide (name = "random") && allow_random); [done|].
  rewrite Hsame. simpl.
  destruct (py_ne (str_object (py_str value)) value) as [[]|e']; simpl; try done;
    by rewrite bool_decide_eq_false_2 by (by rewrite Hstr; intros []).
Qed.

End VerifierFacts.

Lemma immutable_reports_first_positional_witness :
  Immutable.immutable id "bad_add_to_list" ["lst"] Tests.bad_add_to_list
    [PList [PInt 1]] []
  = Raise (Immutable.positional_violation "bad_add_to_list" ["lst"] 0).
Proof.
  apply (immutable_reports_first_positional id "bad_add_to_list" ["lst"]
           Tests.bad_add_to_list [PList [PInt 1]] [PList [PInt 1]]
           [PList [PInt 1]] [] [] []
           {| Immutable.returned := PList [PInt 1; PInt 4];
              Immutable.args_post := [PList [PInt 1; PInt 4]];
              Immutable.kwargs_post := [] |}
           0 (PList [PInt 1]) (PList [PInt 1; PInt 4]));
    try reflexivity.
  - split; [discriminate | by vm_compute].
  - intros j b a Hj. lia.
Defined.

Lemma pure_reports_first_positional_witness :
  Pure.wrapper "bump" ["lst"] ["global_counter"] (Tests.bump "global_counter")
    [] false true (Tests.one_global "global_counter" 0) [PList [PInt 1]] []
  = Raise (Pure.positional_violation "bump" ["lst"] 0).
Proof.
  refine (pure_reports_first_positional "bump" ["lst"] ["global_counter"]
            (Tests.bump "global_counter") [] true false
            (Tests.one_global "global_counter" 0)
            [PList [PInt 1]] [PList [PInt 1]] [] [] [("global_counter", PInt 0)]
            {| Pure.returned := PNone;
               Pure.args_post := [PList [PInt 1; PInt 4]];
               Pure.kwargs_post := [];
               Pure.world_post :=
                 {| Pure.globals :=
                      <["global_counter" := PInt 1]> {["global_counter" := PInt 0]};
                    Pure.random_getstate := 0 |} |}
            _ _ _ _
            0 (PList [PInt 1]) (PList [PInt 1; PInt 4]) _ _ _ _ _);
    try (vm_compute; reflexivity).
  - split; [discriminate | by vm_compute].
  - intros j o c Hj. lia.
Defined.

Lemma pure_deleted_global_raises_KeyError_witness :
  Pure.wrapper "forget" [] ["limit"] (Examples.forget "limit") [] false true
    (Tests.one_global "limit" 0) [] []
  = Raise (KeyError "limit").
Proof.
  refine (pure_deleted_global_raises_KeyError "forget" [] ["limit"]
            (Examples.forget "limit") [] true false
            (Tests.one_global "limit" 0) [] [] [] [] [("limit", PInt 0)]
            {| Pure.returned := PNone;
               Pure.args_post := [];
               Pure.kwargs_post := [];
               Pure.world_post :=
                 {| Pure.globals := delete "limit" {["limit" := PInt 0]};
                    Pure.random_getstate := 0 |} |}
            _ _ _ _ [] [] "limit" (PInt 0) _ _ _ _ _);
    try (vm_compute; reflexivity).
  - intros i original current Hi. by destruct i.
  - intros key original Hin. by apply elem_of_nil in Hin.
  - intros n s Hin. by apply elem_of_nil in Hin.
Defined.

Lemma pure_uncopyable_global_recorded_by_text_witness :
  PStr "<Handle>" = str_object (py_str (PObj Examples.Handle 0))
  ∧ Pure.check_global "report" false
      (Pure.globals (Examples.bound "log_file" (PObj Examples.Handle 0)))
      "log_file" (PStr "<Handle>")
    = Return ().
Proof.
  refine (pure_uncopyable_global_recorded_by_text "report" ["log_file"] true false
            (Pure.globals (Examples.bound "log_file" (PObj Examples.Handle 0)))
            (Pure.globals (Examples.bound "log_file" (PObj Examples.Handle 0)))
            [("log_file", PStr "<Handle>")] "log_file"
            (PObj Examples.Handle 0) (PStr "<Handle>")
            (TypeError "cannot pickle 'Handle' object") _ _ _ _ _ _);
    try (vm_compute; reflexivity).
  by left.
Defined.

(** ** calculate_raw_averages.py: the order of the tests on a line *)

Lemma prefix_contains (needle haystack : string) :
  String.prefix needle haystack = true → RawMetrics.contains needle haystack = true.
Proof.
  intros Hp. destruct haystack; cbn [RawMetrics.contains]; by rewrite Hp.
Qed.

(** A text that contains a string contains that string less its first
    character. *)
Lemma contains_tail (a : Ascii.ascii) (needle haystack : string) :
  RawMetrics.contains (String a needle) haystack = true →
  RawMetrics.contains needle haystack = true.
Proof.
  induction haystack as [|b rest IH]; [done|].
  cbn [RawMetrics.contains]. intros [Hp|Hrest]%orb_true_iff.
  - apply orb_true_iff. right. apply prefix_contains.
    simpl in Hp. by destruct (Ascii.ascii_dec a b).
  - apply orb_true_iff. right. by apply IH.
Qed.

Section RawMetricsFacts.
Variable strip : string → string.
Variable search : string → string → option Z.

Lemma process_line_lloc_sloc (m : RawMetrics.metrics) (line : string) :
  RawMetrics.lloc (RawMetrics.process_line strip search m line) = RawMetrics.lloc m
  ∧ RawMetrics.sloc (RawMetrics.process_line strip search m line)
    = RawMetrics.sloc m.
Proof.
  unfold RawMetrics.process_line.
  destruct (_ && _ && _); [done|].
  destruct (RawMetrics.contains "LOC:" (strip line)) eqn:HLOC; [done|].
  destruct (RawMetrics.contains "LLOC:" (strip line)) eqn:HLLOC.
  { apply contains_tail in HLLOC. congruence. }
  destruct (RawMetrics.contains "SLOC:" (strip line)) eqn:HSLOC.
  { apply contains_tail in HSLOC. congruence. }
  by repeat (destruct (RawMetrics.contains _ _)).
Qed.

(** X22: whatever the lines of the file are, the lists [lloc] and [sloc] are
    empty when the loop ends: a line that contains [LLOC:] or [SLOC:]
    contains [LOC:], which is tested first, so the branches that append to
    these lists are never taken. *)
Theorem raw_lloc_sloc_stay_empty (lines : list string) :
  RawMetrics.lloc (RawMetrics.read_lines strip search lines) = []
  ∧ RawMetrics.sloc (RawMetrics.read_lines strip search lines) = [].
Proof.
  unfold RawMetrics.read_lines.
  assert (∀ m, RawMetrics.lloc m = [] → RawMetrics.sloc m = [] →
            RawMetrics.lloc (foldl (RawMetrics.process_line strip search) m lines) = []
            ∧ RawMetrics.sloc (foldl (RawMetrics.process_line strip search) m lines) = [])
    as Hgen.
  { induction lines as [|line lines IH]; intros m Hl Hs; [done|].
    simpl. destruct (process_line_lloc_sloc m line) as [Hl' Hs'].
    apply IH; congruence. }
  by apply Hgen.
Qed.

(** X23: a line that, stripped, contains [LLOC:] or [SLOC:] is counted as a
    [LOC] line: what the search for [LOC] finds in it is appended to [loc],
    and the other lists and the current file stay as they are. *)
Theorem raw_lloc_line_counted_as_loc (m : RawMetrics.metrics) (line : string) :
  RawMetrics.contains "LLOC:" (strip line) = true
  ∨ RawMetrics.contains "SLOC:" (strip line) = true →
  RawMetrics.process_line strip search m line
  = {| RawMetrics.loc :=
         RawMetrics.append_found (RawMetrics.loc m) (search "LOC" (strip line));
       RawMetrics.lloc := RawMetrics.lloc m;
       RawMetrics.sloc := RawMetrics.sloc m;
       RawMetrics.comments := RawMetrics.comments m;
       RawMetrics.multi := RawMetrics.multi m;
       RawMetrics.blank := RawMetrics.blank m;
       RawMetrics.single_comments := RawMetrics.single_comments m;
       RawMetrics.current_file := RawMetrics.current_file m |}.
Proof.
  intros Hline.
  assert (RawMetrics.contains "LOC:" (strip line) = true) as HLOC.
  { destruct Hline as [Hl|Hs]; by eapply contains_tail. }
  assert (RawMetrics.contains ":" (strip line) = true) as Hcolon.
  { by do 3 apply contains_tail in HLOC. }
  unfold RawMetrics.process_line. rewrite Hcolon, HLOC.
  by rewrite andb_false_r.
Qed.

End RawMetricsFacts.

Lemma raw_lloc_line_counted_as_loc_witness :
  RawMetrics.loc
    (RawMetrics.process_line (λ line, line) Examples.found_12 RawMetrics.initial
       "LLOC: 12")
  = [12%Z].
Proof.
  rewrite (raw_lloc_line_counted_as_loc (λ line, line) Examples.found_12
             RawMetrics.initial "LLOC: 12"); [reflexivity|].
  left. reflexivity.
Defined.
